(** * transmission_pause.py: the seeding sweep, as a small-step machine

    The script is one straight-line prelude (header line, connection,
    listing, counter initialisation), one [for] loop over the listed
    torrents and one summary line.  It is embedded here statement by
    statement: every source line that does something is a program point,
    and [step] executes exactly that line.  The remote service is the only
    source of non-determinism; it is a record of oracles.  Standard output
    is the list of the lines printed so far, and every [stop] command sent
    to the service is recorded in the order it was sent. *)

From Stdlib Require Import ZArith List String Ascii Bool Lia.
From Stdlib Require Import DecimalString DecimalZ DecimalPos.
From Stdlib Require Import Permutation.
Import ListNotations.
Open Scope string_scope.
Open Scope list_scope.
Open Scope Z_scope.

(** ** Data consumed from the service *)

(** One entry of [t.trackerStats]; the counts are Python ints. *)
Record TrackerStat : Type := {
  seederCount : Z;
  leecherCount : Z
}.

(** The attributes of a torrent object that the script reads. *)
Record Torrent : Type := {
  name : string;
  status : string;
  trackerStats : list TrackerStat
}.

(** ** The Python builtins the script relies on *)

Module Py.

(** [str(z)] for an int. *)
Definition str (z : Z) : string := NilZero.string_of_int (Z.to_int z).

Fixpoint zeros (n : nat) : string :=
  match n with
  | O => ""
  | S k => String "0" (zeros k)
  end.

(** Left padding with the character 0 up to [width] characters. *)
Definition pad0 (width : nat) (digits : string) : string :=
  (zeros (width - String.length digits) ++ digits)%string.

(** [format(z, '03')]: zero fill, minimum width 3, the sign (if any) before
    the fill and counted in the width. *)
Definition format_03 (z : Z) : string :=
  if z <? 0 then String "-" (pad0 2 (str (- z))) else pad0 3 (str z).

(** [max(xs, default=d)] over ints. *)
Definition max_default (xs : list Z) (d : Z) : Z :=
  match xs with
  | [] => d
  | x :: rest => fold_left (fun m y => if y >? m then y else m) rest x
  end.

(** [any(bs)]. *)
Definition any (bs : list bool) : bool := existsb (fun b => b) bs.

(** The integer a decimal numeral denotes, for reading a printed count back. *)
Definition int_of_str (s : string) : option Z :=
  option_map Z.of_int (NilZero.int_of_string s).

End Py.

(** ** The script's constants and output lines *)

Definition MAX_SEEDERS : Z := 5.

(** Line 6. *)
Definition header_line : string :=
  ("Pausing all with >" ++ Py.str MAX_SEEDERS ++ " seeders or no leechers")%string.

(** Line 17. *)
Definition seeders_line (seeders : Z) (nm : string) : string :=
  ("[" ++ Py.format_03 seeders ++ "] " ++ nm)%string.

(** Line 23. *)
Definition nop_line (nm : string) : string := ("[nop] " ++ nm)%string.

(** Line 27. *)
Definition summary_line (count : Z) : string :=
  ("Paused " ++ Py.str count)%string.

(** The two expressions evaluated for a seeding torrent (lines 15 and 21). *)
Definition seeders_of (t : Torrent) : Z :=
  Py.max_default (map seederCount (trackerStats t)) 0.

Definition has_peers_of (t : Torrent) : bool :=
  Py.any (map (fun stats => leecherCount stats >? 0) (trackerStats t)).

(** ** The remote service *)

(** What the transmission daemon answers during one run.  [stop_ok k t]
    tells whether the stop command sent for [t] after [k] earlier stop
    commands returns ([true]) or raises ([false]). *)
Record Service : Type := {
  connect_ok : bool;
  get_torrents : option (list Torrent);
  stop_ok : nat -> Torrent -> bool
}.

(** Uncaught exceptions, by the call that raises them. *)
Inductive Exn : Type :=
| ConnectFailed
| ListFailed
| StopFailed (t : Torrent)
| Unbound.

(** ** Program points

    [Lnn] is "about to execute source line nn".  Inside the loop a point
    carries the iterator's remaining torrents [it], the loop variable [t]
    and the body's locals that are read later on. *)
Inductive Point : Type :=
| L06
| L07
| L08
| L09 (torrents : list Torrent)
| L11 (it : list Torrent)
| L12 (it : list Torrent) (t : Torrent)
| L13 (it : list Torrent) (t : Torrent)
| L15 (it : list Torrent) (t : Torrent) (nm : string)
| L16 (it : list Torrent) (t : Torrent) (nm : string) (seeders : Z)
| L17 (it : list Torrent) (t : Torrent) (nm : string) (seeders : Z)
| L18 (it : list Torrent) (t : Torrent) (nm : string)
| L19 (it : list Torrent) (t : Torrent) (nm : string)
| L21 (it : list Torrent) (t : Torrent) (nm : string)
| L22 (it : list Torrent) (t : Torrent) (nm : string) (has_peers : bool)
| L23 (it : list Torrent) (t : Torrent) (nm : string)
| L24 (it : list Torrent) (t : Torrent) (nm : string)
| L25 (it : list Torrent) (t : Torrent) (nm : string)
| L27
| Exit
| Raised (e : Exn).

(** A configuration: where the program is, what it has printed, which stop
    commands it has sent (oldest first, whether accepted or not), and the
    global [pausedCount] ([None] until line 9 binds it). *)
Record Config : Type := {
  pc : Point;
  stdout : list string;
  issued : list Torrent;
  pausedCount : option Z
}.

Definition goto (p : Point) (c : Config) : Config :=
  {| pc := p; stdout := stdout c; issued := issued c;
     pausedCount := pausedCount c |}.

Definition print (line : string) (c : Config) : Config :=
  {| pc := pc c; stdout := stdout c ++ [line]; issued := issued c;
     pausedCount := pausedCount c |}.

Definition raise (e : Exn) (c : Config) : Config := goto (Raised e) c.

(** [t.stop()]: the command is sent, then either returns or raises. *)
Definition rpc_stop (svc : Service) (t : Torrent) (next : Point) (c : Config)
  : Config :=
  let sent := {| pc := pc c; stdout := stdout c; issued := issued c ++ [t];
                 pausedCount := pausedCount c |} in
  if stop_ok svc (List.length (issued c)) t
  then goto next sent
  else raise (StopFailed t) sent.

(** [pausedCount = pausedCount + 1]. *)
Definition incr (next : Point) (c : Config) : Config :=
  match pausedCount c with
  | Some n =>
      {| pc := next; stdout := stdout c; issued := issued c;
         pausedCount := Some (n + 1) |}
  | None => raise Unbound c
  end.

(** One statement.  [None]: the program has ended, normally or not. *)
Definition step (svc : Service) (c : Config) : option Config :=
  match pc c with
  | L06 => Some (goto L07 (print header_line c))
  | L07 => Some (if connect_ok svc then goto L08 c else raise ConnectFailed c)
  | L08 =>
      Some match get_torrents svc with
           | Some torrents => goto (L09 torrents) c
           | None => raise ListFailed c
           end
  | L09 torrents =>
      Some {| pc := L11 torrents; stdout := stdout c; issued := issued c;
              pausedCount := Some 0 |}
  | L11 [] => Some (goto L27 c)
  | L11 (t :: it) => Some (goto (L12 it t) c)
  | L12 it t =>
      Some (goto (if (status t =? "seeding")%string then L13 it t else L11 it) c)
  | L13 it t => Some (goto (L15 it t (name t)) c)
  | L15 it t nm => Some (goto (L16 it t nm (seeders_of t)) c)
  | L16 it t nm seeders =>
      Some (goto (if seeders >? MAX_SEEDERS
                  then L17 it t nm seeders else L21 it t nm) c)
  | L17 it t nm seeders =>
      Some (goto (L18 it t nm) (print (seeders_line seeders nm) c))
  | L18 it t nm => Some (rpc_stop svc t (L19 it t nm) c)
  | L19 it t nm => Some (incr (L21 it t nm) c)
  | L21 it t nm => Some (goto (L22 it t nm (has_peers_of t)) c)
  | L22 it t nm has_peers =>
      Some (goto (if negb has_peers then L23 it t nm else L11 it) c)
  | L23 it t nm => Some (goto (L24 it t nm) (print (nop_line nm) c))
  | L24 it t nm => Some (rpc_stop svc t (L25 it t nm) c)
  | L25 it t nm => Some (incr (L11 it) c)
  | L27 =>
      Some match pausedCount c with
           | Some n => goto Exit (print (summary_line n) c)
           | None => raise Unbound c
           end
  | Exit => None
  | Raised _ => None
  end.

(** [steps n]: exactly [n] statements, or as many as there are. *)
Fixpoint steps (n : nat) (svc : Service) (c : Config) : Config :=
  match n with
  | O => c
  | S k =>
      match step svc c with
      | Some c' => steps k svc c'
      | None => c
      end
  end.

Definition initial : Config :=
  {| pc := L06; stdout := []; issued := []; pausedCount := None |}.

(** At most 13 statements per torrent, 4 before the loop and 2 after it. *)
Definition fuel_for (svc : Service) : nat :=
  match get_torrents svc with
  | Some torrents => 6 + 13 * List.length torrents
  | None => 6
  end.

(** The whole script against a given service: its last configuration. *)
Definition main (svc : Service) : Config := steps (fuel_for svc) svc initial.

Definition halted (c : Config) : bool :=
  match pc c with
  | Exit | Raised _ => true
  | _ => false
  end.

(** The configurations a run goes through. *)
Inductive reachable (svc : Service) : Config -> Prop :=
| reach_initial : reachable svc initial
| reach_step c c' :
    reachable svc c -> step svc c = Some c' -> reachable svc c'.

(** ** Observations on a configuration *)

(** The per-action lines are the ones that open with a bracket; the header
    and the summary open with a capital P. *)
Definition is_action_line (line : string) : bool :=
  match line with
  | String "[" _ => true
  | _ => false
  end.

Definition action_lines (out : list string) : list string :=
  filter is_action_line out.

(** How many of the two conditions hold for a torrent (0 when it is not
    seeding). *)
Definition seeders_trigger (t : Torrent) : bool := seeders_of t >? MAX_SEEDERS.
Definition no_peers_trigger (t : Torrent) : bool := negb (has_peers_of t).

Definition triggers (t : Torrent) : Z :=
  if (status t =? "seeding")%string
  then Z.b2z (seeders_trigger t) + Z.b2z (no_peers_trigger t)
  else 0.

Definition total_triggers (ts : list Torrent) : Z :=
  fold_right (fun t acc => triggers t + acc) 0 ts.

(** A service that never refuses anything and lists [ts]. *)
Definition reliable (ts : list Torrent) : Service :=
  {| connect_ok := true; get_torrents := Some ts;
     stop_ok := fun _ _ => true |}.

(** What one complete loop iteration on [t] prints and sends when no stop
    command is refused. *)
Definition first_lines (t : Torrent) : list string :=
  if seeders_trigger t then [seeders_line (seeders_of t) (name t)] else [].

Definition first_stops (t : Torrent) : list Torrent :=
  if seeders_trigger t then [t] else [].

Definition lines_of (t : Torrent) : list string :=
  if (status t =? "seeding")%string
  then first_lines t ++ (if no_peers_trigger t then [nop_line (name t)] else [])
  else [].

Definition stops_of (t : Torrent) : list Torrent :=
  if (status t =? "seeding")%string
  then first_stops t ++ (if no_peers_trigger t then [t] else [])
  else [].

(** The remote call about to fail at a configuration, if any. *)
Definition failing_call (svc : Service) (c : Config) : option Exn :=
  match pc c with
  | L07 => if connect_ok svc then None else Some ConnectFailed
  | L08 =>
      match get_torrents svc with
      | Some _ => None
      | None => Some ListFailed
      end
  | L18 _ t _ | L24 _ t _ =>
      if stop_ok svc (List.length (issued c)) t then None
      else Some (StopFailed t)
  | _ => None
  end.

(** The stop commands the failing call adds to the record: the refused
    command itself. *)
Definition failing_stop (e : Exn) : list Torrent :=
  match e with
  | StopFailed t => [t]
  | _ => []
  end.

(** Points where no triggered branch is half-way through: the line, the
    command and the increment of every branch entered so far are all done. *)
Definition between_branches (p : Point) : bool :=
  match p with
  | L18 _ _ _ | L19 _ _ _ | L24 _ _ _ | L25 _ _ _ | Raised _ => false
  | _ => true
  end.

(** The summary line, once the run has completed. *)
Definition summary_of (c : Config) : list string :=
  match pc c, pausedCount c with
  | Exit, Some n => [summary_line n]
  | _, _ => []
  end.

(** The two shapes of a per-action line.  The tag of a threshold line is
    the decimal numeral of a count above the threshold, at least three
    characters wide. *)
Definition threshold_form (line : string) : Prop :=
  exists seeders nm,
    line = ("[" ++ Py.format_03 seeders ++ "] " ++ nm)%string
    /\ MAX_SEEDERS < seeders
    /\ (3 <= String.length (Py.format_03 seeders))%nat
    /\ Py.int_of_str (Py.format_03 seeders) = Some seeders.

Definition nop_form (line : string) : Prop :=
  exists nm, line = ("[nop] " ++ nm)%string.

Definition action_form (line : string) : Prop :=
  threshold_form line \/ nop_form line.

(** ** The invariant of a run

    [mid svc k it t p ls ss n]: inside the iteration on [t], at point [p],
    the iteration has so far printed [ls], sent [ss] and added [n] to the
    counter; [k] stop commands had been sent before the iteration began. *)
Definition seeding (t : Torrent) : Prop := status t = "seeding".

Inductive mid (svc : Service) (k : nat) (it : list Torrent) (t : Torrent)
  : Point -> list string -> list Torrent -> Z -> Prop :=
| mid_L12 : mid svc k it t (L12 it t) [] [] 0
| mid_L13 : seeding t -> mid svc k it t (L13 it t) [] [] 0
| mid_L15 : seeding t -> mid svc k it t (L15 it t (name t)) [] [] 0
| mid_L16 :
    seeding t -> mid svc k it t (L16 it t (name t) (seeders_of t)) [] [] 0
| mid_L17 :
    seeding t -> seeders_trigger t = true ->
    mid svc k it t (L17 it t (name t) (seeders_of t)) [] [] 0
| mid_L18 :
    seeding t -> seeders_trigger t = true ->
    mid svc k it t (L18 it t (name t))
      [seeders_line (seeders_of t) (name t)] [] 0
| mid_L19 :
    seeding t -> seeders_trigger t = true ->
    mid svc k it t (L19 it t (name t))
      [seeders_line (seeders_of t) (name t)] [t] 0
| mid_fail1 :
    seeding t -> seeders_trigger t = true -> stop_ok svc k t = false ->
    mid svc k it t (Raised (StopFailed t))
      [seeders_line (seeders_of t) (name t)] [t] 0
| mid_L21 :
    seeding t ->
    mid svc k it t (L21 it t (name t))
      (first_lines t) (first_stops t) (Z.b2z (seeders_trigger t))
| mid_L22 :
    seeding t ->
    mid svc k it t (L22 it t (name t) (has_peers_of t))
      (first_lines t) (first_stops t) (Z.b2z (seeders_trigger t))
| mid_L23 :
    seeding t -> no_peers_trigger t = true ->
    mid svc k it t (L23 it t (name t))
      (first_lines t) (first_stops t) (Z.b2z (seeders_trigger t))
| mid_L24 :
    seeding t -> no_peers_trigger t = true ->
    mid svc k it t (L24 it t (name t))
      (first_lines t ++ [nop_line (name t)]) (first_stops t)
      (Z.b2z (seeders_trigger t))
| mid_L25 :
    seeding t -> no_peers_trigger t = true ->
    mid svc k it t (L25 it t (name t))
      (first_lines t ++ [nop_line (name t)]) (first_stops t ++ [t])
      (Z.b2z (seeders_trigger t))
| mid_fail2 :
    seeding t -> no_peers_trigger t = true ->
    stop_ok svc (k + List.length (first_stops t)) t = false ->
    mid svc k it t (Raised (StopFailed t))
      (first_lines t ++ [nop_line (name t)]) (first_stops t ++ [t])
      (Z.b2z (seeders_trigger t)).

Definition mk (p : Point) (out : list string) (sent : list Torrent)
  (count : option Z) : Config :=
  {| pc := p; stdout := out; issued := sent; pausedCount := count |}.

(** [Inv svc c]: [c] is one of the configurations the script can be in
    against [svc]; [done] are the torrents whose iteration is over. *)
Inductive Inv (svc : Service) : Config -> Prop :=
| Inv_L06 : Inv svc (mk L06 [] [] None)
| Inv_L07 : Inv svc (mk L07 [header_line] [] None)
| Inv_L08 : connect_ok svc = true -> Inv svc (mk L08 [header_line] [] None)
| Inv_noconn :
    connect_ok svc = false ->
    Inv svc (mk (Raised ConnectFailed) [header_line] [] None)
| Inv_nolist :
    get_torrents svc = None ->
    Inv svc (mk (Raised ListFailed) [header_line] [] None)
| Inv_L09 ts :
    get_torrents svc = Some ts -> Inv svc (mk (L09 ts) [header_line] [] None)
| Inv_L11 ts done it :
    get_torrents svc = Some ts -> ts = done ++ it ->
    Inv svc (mk (L11 it)
               (header_line :: flat_map lines_of done)
               (flat_map stops_of done)
               (Some (total_triggers done)))
| Inv_mid ts done t it p ls ss n :
    get_torrents svc = Some ts -> ts = done ++ t :: it ->
    mid svc (List.length (flat_map stops_of done)) it t p ls ss n ->
    Inv svc (mk p
               (header_line :: flat_map lines_of done ++ ls)
               (flat_map stops_of done ++ ss)
               (Some (total_triggers done + n)))
| Inv_L27 ts :
    get_torrents svc = Some ts ->
    Inv svc (mk L27
               (header_line :: flat_map lines_of ts)
               (flat_map stops_of ts)
               (Some (total_triggers ts)))
| Inv_Exit ts :
    get_torrents svc = Some ts ->
    Inv svc (mk Exit
               (header_line :: flat_map lines_of ts
                  ++ [summary_line (total_triggers ts)])
               (flat_map stops_of ts)
               (Some (total_triggers ts))).

(** A per-action line together with the stop command it announces: the
    torrent, and which condition fired ([true]: the seeder threshold of
    line 16; [false]: no peers, line 22). *)
Definition Action : Type := (Torrent * bool)%type.

Definition action_line (a : Action) : string :=
  if snd a then seeders_line (seeders_of (fst a)) (name (fst a))
  else nop_line (name (fst a)).

Definition first_actions (t : Torrent) : list Action :=
  if seeders_trigger t then [(t, true)] else [].

Definition actions_of (t : Torrent) : list Action :=
  if (status t =? "seeding")%string
  then first_actions t ++ (if no_peers_trigger t then [(t, false)] else [])
  else [].

Definition action_ok (a : Action) : Prop :=
  seeding (fst a)
  /\ if snd a then seeders_trigger (fst a) = true
     else no_peers_trigger (fst a) = true.

(** The commands sent are those of the actions announced, the last one
    possibly still to be sent. *)
Definition commands_for (acts : list Action) (sent : list Torrent) : Prop :=
  sent = map fst acts
  \/ exists pre a, acts = pre ++ [a] /\ sent = map fst pre.

(** Every stop command on the record [sent] was accepted by the service:
    the one sent after the commands [pre] returned. *)
Definition all_accepted (svc : Service) (sent : list Torrent) : Prop :=
  forall pre t post, sent = pre ++ t :: post ->
                     stop_ok svc (List.length pre) t = true.

(** The record of stop commands is consistent with the service: when the
    run died on a stop command, that command is the last one on record and
    the only one refused; otherwise none was refused. *)
Definition consistent (svc : Service) (c : Config) : Prop :=
  match pc c with
  | Raised (StopFailed t) =>
      exists pre, issued c = pre ++ [t]
                  /\ all_accepted svc pre
                  /\ stop_ok svc (List.length pre) t = false
  | _ => all_accepted svc (issued c)
  end.

(** Statements left before the program ends, at most. *)
Definition measure (svc : Service) (p : Point) : nat :=
  match p with
  | L06 => fuel_for svc
  | L07 => fuel_for svc - 1
  | L08 => fuel_for svc - 2
  | L09 ts => 3 + 13 * List.length ts
  | L11 it => 2 + 13 * List.length it
  | L12 it _ => 14 + 13 * List.length it
  | L13 it _ => 13 + 13 * List.length it
  | L15 it _ _ => 12 + 13 * List.length it
  | L16 it _ _ _ => 11 + 13 * List.length it
  | L17 it _ _ _ => 10 + 13 * List.length it
  | L18 it _ _ => 9 + 13 * List.length it
  | L19 it _ _ => 8 + 13 * List.length it
  | L21 it _ _ => 7 + 13 * List.length it
  | L22 it _ _ _ => 6 + 13 * List.length it
  | L23 it _ _ => 5 + 13 * List.length it
  | L24 it _ _ => 4 + 13 * List.length it
  | L25 it _ _ => 3 + 13 * List.length it
  | L27 => 1
  | Exit => 0
  | Raised _ => 0
  end%nat.

(** ** Concrete torrents and services used in the examples *)

Definition stat (s l : Z) : TrackerStat :=
  {| seederCount := s; leecherCount := l |}.

Definition torrent (nm st : string) (stats : list TrackerStat) : Torrent :=
  {| name := nm; status := st; trackerStats := stats |}.

Definition t_both : Torrent := torrent "a" "seeding" [stat 10 0].
Definition t_empty : Torrent := torrent "b" "seeding" [].
Definition t_neither : Torrent := torrent "c" "seeding" [stat 3 2].
Definition t_seeders : Torrent := torrent "d" "seeding" [stat 6 1].
Definition t_stopped : Torrent := torrent "e" "stopped" [stat 10 0].

(** A service that refuses every stop command. *)
Definition refusing (ts : list Torrent) : Service :=
  {| connect_ok := true; get_torrents := Some ts;
     stop_ok := fun _ _ => false |}.

(** A service that accepts the first [k] stop commands and refuses the
    later ones. *)
Definition accepting (k : nat) (ts : list Torrent) : Service :=
  {| connect_ok := true; get_torrents := Some ts;
     stop_ok := fun i _ => Nat.ltb i k |}.

Definition unreachable_host : Service :=
  {| connect_ok := false; get_torrents := None;
     stop_ok := fun _ _ => true |}.

Definition listing_fails : Service :=
  {| connect_ok := true; get_torrents := None;
     stop_ok := fun _ _ => true |}.

(** * Properties *)

(** ** The spec's worked cases, run end to end *)

Example spec_case_both :
  stdout (main (reliable [t_both]))
  = ["Pausing all with >5 seeders or no leechers"; "[010] a"; "[nop] a";
     "Paused 2"].
Proof. reflexivity. Qed.

Example spec_case_mix :
  stdout (main (reliable [t_both; t_stopped; t_empty; t_neither; t_seeders]))
  = ["Pausing all with >5 seeders or no leechers"; "[010] a"; "[nop] a";
     "[nop] b"; "[006] d"; "Paused 4"].
Proof. reflexivity. Qed.

Example format_03_cases :
  map Py.format_03 [0; 6; 10; 123; 1234; -1; -12; -123]
  = ["000"; "006"; "010"; "123"; "1234"; "-01"; "-12"; "-123"].
Proof. reflexivity. Qed.

(** ** Running the machine *)

Lemma steps_add (a b : nat) svc c :
  steps (a + b) svc c = steps b svc (steps a svc c).
Proof.
  revert c. induction a as [|a IH]; intros c; cbn [steps Nat.add].
  - reflexivity.
  - destruct (step svc c) as [c'|] eqn:E.
    + apply IH.
    + destruct b; cbn [steps]; [reflexivity|]. now rewrite E.
Qed.

Lemma steps_halted n svc c : step svc c = None -> steps n svc c = c.
Proof. intros H. destruct n; cbn [steps]; [reflexivity|]. now rewrite H. Qed.

Lemma step_None_halted svc c : step svc c = None <-> halted c = true.
Proof.
  unfold step, halted. destruct (pc c) as [| | | | [|? ?] | | | | | | | | | | | | | | | ];
    split; intros H; try discriminate; reflexivity.
Qed.

Lemma reachable_steps n svc c : reachable svc c -> reachable svc (steps n svc c).
Proof.
  revert c. induction n as [|n IH]; intros c H; cbn [steps]; [exact H|].
  destruct (step svc c) as [c'|] eqn:E; [|exact H].
  apply IH. eapply reach_step; eassumption.
Qed.

Lemma reachable_is_steps svc c :
  reachable svc c -> exists n, c = steps n svc initial.
Proof.
  induction 1 as [|c c' _ [n ->] Hs].
  - now exists O.
  - exists (n + 1)%nat. rewrite steps_add. cbn [steps]. now rewrite Hs.
Qed.

(** Every statement uses up one unit of [measure]. *)
Lemma step_measure svc c c' :
  step svc c = Some c' -> (measure svc (pc c') < measure svc (pc c))%nat.
Proof.
  unfold step, fuel_for. destruct c as [p out sent cnt]. cbn [pc].
  destruct p as [| | | | [|? ?] | | | | | | | | | | | | | | | ]; intros H;
    try discriminate; injection H as <-; cbn [pc goto print raise measure];
    unfold incr, rpc_stop, raise, fuel_for;
    cbn [pc goto print raise measure pausedCount issued List.length];
    repeat match goal with
      | |- context [match ?x with _ => _ end] => destruct x eqn:?
      end;
    cbn [pc goto print raise measure List.length]; unfold fuel_for;
    repeat match goal with
      | H : get_torrents _ = _ |- _ => rewrite H
      end;
    lia.
Qed.

Lemma steps_enough n svc c :
  (measure svc (pc c) <= n)%nat -> halted (steps n svc c) = true.
Proof.
  revert c. induction n as [|n IH]; intros c Hm; cbn [steps].
  - destruct (step svc c) as [c'|] eqn:E.
    + apply step_measure in E. lia.
    + now apply (step_None_halted svc).
  - destruct (step svc c) as [c'|] eqn:E.
    + apply IH. apply step_measure in E. lia.
    + now apply (step_None_halted svc).
Qed.

(** The script always ends: its last configuration is [Exit] or [Raised]. *)
Lemma main_halted svc : halted (main svc) = true.
Proof. unfold main. apply steps_enough. cbn. lia. Qed.

Lemma main_reachable svc : reachable svc (main svc).
Proof. apply reachable_steps, reach_initial. Qed.

(** A run has one last configuration. *)
Lemma halted_is_main svc c :
  reachable svc c -> halted c = true -> c = main svc.
Proof.
  intros Hr Hh. destruct (reachable_is_steps _ _ Hr) as [n ->].
  pose proof (main_halted svc) as Hm. unfold main in *.
  apply (step_None_halted svc) in Hh. apply (step_None_halted svc) in Hm.
  destruct (Nat.le_ge_cases n (fuel_for svc)) as [L|L].
  - replace (fuel_for svc) with (n + (fuel_for svc - n))%nat by lia.
    rewrite steps_add. symmetry. now apply steps_halted.
  - replace n with (fuel_for svc + (n - fuel_for svc))%nat at 1 by lia.
    rewrite steps_add. now apply steps_halted.
Qed.

(** ** The invariant holds along every run *)

Lemma total_triggers_app a b :
  total_triggers (a ++ b) = total_triggers a + total_triggers b.
Proof.
  unfold total_triggers.
  induction a as [|t a IH]; cbn [fold_right app]; [reflexivity|].
  rewrite IH. lia.
Qed.

Lemma total_triggers_one t : total_triggers [t] = triggers t.
Proof. cbn. lia. Qed.

Lemma flat_map_one {A B} (f : A -> list B) x : flat_map f [x] = f x.
Proof. cbn. apply app_nil_r. Qed.

Lemma Inv_mid_eq svc ts done t it p ls ss n out sent cnt :
  get_torrents svc = Some ts -> ts = done ++ t :: it ->
  mid svc (List.length (flat_map stops_of done)) it t p ls ss n ->
  out = header_line :: flat_map lines_of done ++ ls ->
  sent = flat_map stops_of done ++ ss ->
  cnt = Some (total_triggers done + n) ->
  Inv svc (mk p out sent cnt).
Proof. intros; subst; eapply Inv_mid; eauto. Qed.

(** Closing the iteration on [t]: what it did is what [lines_of],
    [stops_of] and [triggers] say. *)
Lemma Inv_next svc ts done t it out sent cnt :
  get_torrents svc = Some ts -> ts = done ++ t :: it ->
  out = header_line :: flat_map lines_of done ++ lines_of t ->
  sent = flat_map stops_of done ++ stops_of t ->
  cnt = Some (total_triggers done + triggers t) ->
  Inv svc (mk (L11 it) out sent cnt).
Proof.
  intros Hg -> -> -> ->.
  rewrite <- (flat_map_one lines_of t), <- (flat_map_one stops_of t).
  rewrite <- !flat_map_app, <- total_triggers_one, <- total_triggers_app.
  eapply Inv_L11; [eassumption|]. now rewrite <- app_assoc.
Qed.

Lemma seeding_eqb t : seeding t -> (status t =? "seeding")%string = true.
Proof. intros H. now apply String.eqb_eq. Qed.

Lemma lines_of_seeding t :
  seeding t ->
  lines_of t
  = first_lines t ++ (if no_peers_trigger t then [nop_line (name t)] else []).
Proof. intros H. unfold lines_of. now rewrite (seeding_eqb t H). Qed.

Lemma stops_of_seeding t :
  seeding t ->
  stops_of t = first_stops t ++ (if no_peers_trigger t then [t] else []).
Proof. intros H. unfold stops_of. now rewrite (seeding_eqb t H). Qed.

Lemma triggers_seeding t :
  seeding t ->
  triggers t = Z.b2z (seeders_trigger t) + Z.b2z (no_peers_trigger t).
Proof. intros H. unfold triggers. now rewrite (seeding_eqb t H). Qed.

Ltac run_step H :=
  unfold step, rpc_stop, incr, raise in H;
  cbn [pc stdout issued pausedCount mk goto print app] in H.

Ltac unfold_config :=
  unfold raise, goto, print, mk; cbn [pc stdout issued pausedCount].

(** Re-establish [Inv] inside the iteration, at the point reached by [C]. *)
Ltac to_mid C :=
  unfold_config;
  eapply Inv_mid_eq;
  [ eassumption | first [eassumption | reflexivity] | apply C; assumption
  | cbn [app]; rewrite ?app_nil_r, <- ?app_assoc; reflexivity
  | cbn [app]; rewrite ?app_nil_r, <- ?app_assoc; reflexivity
  | f_equal; cbn [Z.b2z]; lia ].

(** Re-establish [Inv] at the loop head, the iteration on [t] being over. *)
Ltac to_next Hseed :=
  unfold_config;
  eapply Inv_next; [ eassumption | reflexivity | | | ];
  rewrite ?(lines_of_seeding _ Hseed), ?(stops_of_seeding _ Hseed),
    ?(triggers_seeding _ Hseed).

Lemma Inv_step svc c c' : Inv svc c -> step svc c = Some c' -> Inv svc c'.
Proof.
  intros HI Hs. destruct HI; run_step Hs.
  - injection Hs as <-. apply Inv_L07.
  - injection Hs as <-. destruct (connect_ok svc) eqn:E.
    + now apply Inv_L08.
    + now apply Inv_noconn.
  - injection Hs as <-. destruct (get_torrents svc) as [ts|] eqn:E.
    + now apply Inv_L09.
    + now apply Inv_nolist.
  - discriminate.
  - discriminate.
  - injection Hs as <-.
    apply (Inv_L11 svc ts [] ts); [assumption|reflexivity].
  - destruct it as [|t it]; injection Hs as <-.
    + subst ts. rewrite app_nil_r in H. now apply Inv_L27.
    + to_mid mid_L12.
  - match goal with Hm : mid _ _ _ _ _ _ _ _ |- _ => inversion Hm; subst end;
      run_step Hs; try discriminate; injection Hs as <-.
    + (* line 12 *)
      destruct (status t =? "seeding")%string eqn:E.
      * apply String.eqb_eq in E. to_mid mid_L13.
      * unfold_config. eapply Inv_next; [eassumption|reflexivity| | |];
          unfold lines_of, stops_of, triggers; rewrite E;
          rewrite ?app_nil_r; reflexivity.
    + to_mid mid_L15.
    + to_mid mid_L16.
    + (* line 16 *)
      destruct (seeders_of t >? MAX_SEEDERS) eqn:E.
      * to_mid mid_L17.
      * unfold_config. eapply Inv_mid_eq;
          [eassumption|reflexivity|apply mid_L21; assumption| | |];
          unfold first_lines, first_stops, seeders_trigger; rewrite E;
          reflexivity.
    + to_mid mid_L18.
    + (* line 18 *)
      rewrite app_nil_r.
      destruct (stop_ok svc (List.length (flat_map stops_of done)) t) eqn:E.
      * to_mid mid_L19.
      * to_mid mid_fail1.
    + (* line 19 *)
      unfold_config. eapply Inv_mid_eq;
        [eassumption|reflexivity|apply mid_L21; assumption| | |];
        unfold first_lines, first_stops;
        match goal with Ht : seeders_trigger _ = true |- _ => rewrite Ht end;
        cbn [Z.b2z]; rewrite ?Z.add_0_r; reflexivity.
    + to_mid mid_L22.
    + (* line 22 *)
      destruct (has_peers_of t) eqn:E; cbn [negb].
      * match goal with Hseed : seeding _ |- _ => to_next Hseed end;
          unfold no_peers_trigger; rewrite E; cbn [negb Z.b2z];
          rewrite ?app_nil_r, ?Z.add_0_r; reflexivity.
      * assert (no_peers_trigger t = true)
          by (unfold no_peers_trigger; now rewrite E).
        to_mid mid_L23.
    + to_mid mid_L24.
    + (* line 24 *)
      rewrite length_app.
      destruct (stop_ok svc _ t) eqn:E.
      * to_mid mid_L25.
      * to_mid mid_fail2.
    + (* line 25 *)
      match goal with Hseed : seeding _ |- _ => to_next Hseed end;
        match goal with Ht : no_peers_trigger _ = true |- _ => rewrite Ht end;
        cbn [Z.b2z]; rewrite <- ?app_assoc, ?Z.add_assoc; reflexivity.
  - injection Hs as <-. unfold_config. now apply Inv_Exit.
  - discriminate.
Qed.

Lemma reachable_Inv svc c : reachable svc c -> Inv svc c.
Proof.
  induction 1 as [|c c' _ IH Hs]; [apply Inv_L06|].
  eapply Inv_step; eassumption.
Qed.

(** ** The builtins *)

Module PyFacts.

Lemma fold_max_spec rest x :
  let m := fold_left (fun m y => if y >? m then y else m) rest x in
  (m = x \/ In m rest) /\ x <= m /\ Forall (fun y => y <= m) rest.
Proof.
  revert x. induction rest as [|y rest IH]; intros x; cbn [fold_left].
  - repeat split; [now left | lia | constructor].
  - specialize (IH (if y >? x then y else x)). cbv zeta in IH.
    destruct IH as ([E|I] & Hle & Hall).
    + destruct (Z.gtb_spec y x) as [L|L].
      * repeat split; [right; left; now symmetry | lia |].
        constructor; [lia | exact Hall].
      * repeat split; [now left | lia |].
        constructor; [lia | exact Hall].
    + destruct (Z.gtb_spec y x) as [L|L];
        (repeat split; [right; now right | lia |]);
        (constructor; [lia | exact Hall]).
Qed.

(** [max(xs, default=d)] is [d] on the empty list and otherwise an element
    of [xs] that no element exceeds. *)
Lemma max_default_nil d : Py.max_default [] d = d.
Proof. reflexivity. Qed.

Lemma max_default_spec xs d :
  xs <> [] ->
  In (Py.max_default xs d) xs /\ Forall (fun y => y <= Py.max_default xs d) xs.
Proof.
  destruct xs as [|x rest]; [congruence|]. intros _. cbn [Py.max_default].
  destruct (fold_max_spec rest x) as ([E|I] & Hle & Hall).
  - split; [left; now symmetry | constructor; assumption].
  - split; [now right | constructor; assumption].
Qed.

Lemma any_true bs : Py.any bs = true <-> In true bs.
Proof.
  unfold Py.any. rewrite existsb_exists. split.
  - intros (b & Hin & ->). exact Hin.
  - intros H. now exists true.
Qed.

Lemma length_append (a b : string) :
  String.length (a ++ b) = (String.length a + String.length b)%nat.
Proof. induction a as [|ch a IH]; cbn; [reflexivity | now rewrite IH]. Qed.

Lemma length_zeros k : String.length (Py.zeros k) = k.
Proof. induction k as [|k IH]; cbn; [reflexivity | now rewrite IH]. Qed.

Lemma length_pad0 w s : (w <= String.length (Py.pad0 w s))%nat.
Proof. unfold Py.pad0. rewrite length_append, length_zeros. lia. Qed.

(** Padding writes the numeral of the same digits with leading zeros. *)
Lemma zeros_digits k d :
  (Py.zeros k ++ NilEmpty.string_of_uint d)%string
  = NilEmpty.string_of_uint (Nat.iter k Decimal.D0 d).
Proof. induction k as [|k IH]; cbn; [reflexivity | now rewrite IH]. Qed.

Lemma of_uint_zeros k d : Z.of_uint (Nat.iter k Decimal.D0 d) = Z.of_uint d.
Proof. induction k as [|k IH]; cbn; [reflexivity | exact IH]. Qed.

Lemma iter_D0_nonnil k d :
  d <> Decimal.Nil -> Nat.iter k Decimal.D0 d <> Decimal.Nil.
Proof. destruct k; cbn; [trivial | discriminate]. Qed.

Lemma str_pos p : Py.str (Z.pos p) = NilEmpty.string_of_uint (Pos.to_uint p).
Proof.
  unfold Py.str. cbn [Z.to_int NilZero.string_of_int].
  pose proof (DecimalPos.Unsigned.to_uint_nonnil p) as H.
  destruct (Pos.to_uint p); [congruence | reflexivity ..].
Qed.

Lemma int_of_str_padded k p :
  Py.int_of_str (Py.zeros k ++ Py.str (Z.pos p))%string = Some (Z.pos p).
Proof.
  rewrite str_pos, zeros_digits. unfold Py.int_of_str.
  pose proof (iter_D0_nonnil k _ (DecimalPos.Unsigned.to_uint_nonnil p)) as Hn.
  set (d := Nat.iter k Decimal.D0 (Pos.to_uint p)) in *.
  assert (E : NilEmpty.string_of_uint d
              = NilZero.string_of_int (Decimal.Pos d)).
  { cbn [NilZero.string_of_int]. destruct d; [congruence | reflexivity ..]. }
  rewrite E, NilZero.isi by congruence.
  cbn [option_map Z.of_int]. subst d. rewrite of_uint_zeros. f_equal.
  unfold Z.of_uint. now rewrite DecimalPos.Unsigned.of_to.
Qed.

(** [format(z, '03')] of a count: at least three characters, and the
    decimal numeral of [z]. *)
Lemma format_03_width z : (3 <= String.length (Py.format_03 z))%nat.
Proof.
  unfold Py.format_03. destruct (z <? 0).
  - cbn [String.length]. pose proof (length_pad0 2 (Py.str (- z))). lia.
  - apply length_pad0.
Qed.

Lemma format_03_value z : 0 <= z -> Py.int_of_str (Py.format_03 z) = Some z.
Proof.
  intros Hz. unfold Py.format_03.
  destruct (Z.ltb_spec z 0) as [L|_]; [lia|].
  destruct z as [|p|p]; [reflexivity | | lia].
  unfold Py.pad0. apply int_of_str_padded.
Qed.

Lemma str_value z : Py.int_of_str (Py.str z) = Some z.
Proof.
  unfold Py.int_of_str, Py.str.
  rewrite NilZero.isi.
  - cbn [option_map]. now rewrite DecimalZ.of_to.
  - destruct z; cbn; try discriminate;
      intros H; injection H as H; now apply DecimalPos.Unsigned.to_uint_nonnil in H.
  - destruct z; cbn; try discriminate;
      intros H; injection H as H; now apply DecimalPos.Unsigned.to_uint_nonnil in H.
Qed.

(** The width of the tag: three characters, or the numeral's own length
    when that is more. *)
Lemma format_03_length z :
  0 <= z ->
  String.length (Py.format_03 z)
  = Nat.max 3 (String.length (NilZero.string_of_int (Z.to_int z))).
Proof.
  intros Hz. unfold Py.format_03.
  destruct (Z.ltb_spec z 0) as [L|_]; [lia|].
  unfold Py.pad0, Py.str. rewrite length_append, length_zeros. lia.
Qed.

End PyFacts.

(** ** The two conditions, in terms of the tracker statistics *)

Lemma seeders_of_empty t : trackerStats t = [] -> seeders_of t = 0.
Proof. unfold seeders_of. now intros ->. Qed.

Lemma seeders_of_max t :
  trackerStats t <> [] ->
  (exists st, In st (trackerStats t) /\ seederCount st = seeders_of t)
  /\ (forall st, In st (trackerStats t) -> seederCount st <= seeders_of t).
Proof.
  intros Hne. unfold seeders_of.
  destruct (PyFacts.max_default_spec (map seederCount (trackerStats t)) 0)
    as [Hin Hall].
  - destruct (trackerStats t); [congruence | discriminate].
  - split.
    + apply in_map_iff in Hin. destruct Hin as (st & E & Hin). now exists st.
    + intros st Hst. rewrite Forall_forall in Hall. apply Hall.
      now apply in_map.
Qed.

Lemma has_peers_of_true t :
  has_peers_of t = true
  <-> exists st, In st (trackerStats t) /\ 0 < leecherCount st.
Proof.
  unfold has_peers_of. rewrite PyFacts.any_true, in_map_iff. split.
  - intros (st & E & Hin). exists st. split; [exact Hin|].
    destruct (Z.gtb_spec (leecherCount st) 0); [lia | discriminate].
  - intros (st & Hin & Hpos). exists st. split; [|exact Hin].
    destruct (Z.gtb_spec (leecherCount st) 0); [reflexivity | lia].
Qed.

Lemma has_peers_of_false t :
  has_peers_of t = false
  <-> forall st, In st (trackerStats t) -> ~ 0 < leecherCount st.
Proof.
  split.
  - intros E st Hin Hpos.
    assert (has_peers_of t = true) by (apply has_peers_of_true; eauto).
    congruence.
  - intros H. destruct (has_peers_of t) eqn:E; [|reflexivity].
    apply has_peers_of_true in E. destruct E as (st & Hin & Hpos).
    now destruct (H st Hin).
Qed.

Lemma gtb_true a b : b < a -> (a >? b) = true.
Proof. intros H. destruct (Z.gtb_spec a b); [reflexivity | lia]. Qed.

Lemma gtb_false a b : a <= b -> (a >? b) = false.
Proof. intros H. destruct (Z.gtb_spec a b); [lia | reflexivity]. Qed.

(** ** One loop iteration *)

(** Symbolic execution: unroll [steps], then alternate between computing
    and rewriting with the facts known about the branch conditions. *)
Ltac exec :=
  cbn [steps]; unfold step, rpc_stop, incr, raise, goto, print, mk;
  repeat (cbn [pc stdout issued pausedCount negb];
          rewrite ?length_app; cbn [List.length]; rewrite ?Nat.add_1_r;
          match goal with
          | H : _ = true |- _ => rewrite H
          | H : _ = false |- _ => rewrite H
          end);
  cbn [pc stdout issued pausedCount negb].




(** [C2] For a seeding torrent, line 15 computes the largest [seederCount]
    of its tracker statistics (0 when there are none), and lines 16 to 19
    print the line tagged with that count, send one stop command and add 1
    to the counter exactly when that count is strictly above the threshold
    5; a count equal to the threshold changes nothing.  The tag between
    the brackets is the decimal numeral of that count with leading zeros
    up to three characters: it reads back as the count and is as wide as
    the numeral, or three characters when the numeral is shorter. *)
Theorem C2_seeder_threshold svc it t out sent n :
  status t = "seeding" ->
  stop_ok svc (List.length sent) t = true ->
  let m := seeders_of t in
  let c := mk (L11 (t :: it)) out sent (Some n) in
  (trackerStats t = [] -> m = 0)
  /\ (trackerStats t <> [] ->
      (exists st, In st (trackerStats t) /\ seederCount st = m)
      /\ (forall st, In st (trackerStats t) -> seederCount st <= m))
  /\ steps 4 svc c = mk (L16 it t (name t) m) out sent (Some n)
  /\ (MAX_SEEDERS < m ->
      steps 8 svc c
      = mk (L21 it t (name t))
           (out ++ [("[" ++ Py.format_03 m ++ "] " ++ name t)%string])
           (sent ++ [t])
           (Some (n + 1)))
  /\ (m <= MAX_SEEDERS ->
      steps 5 svc c = mk (L21 it t (name t)) out sent (Some n))
  /\ (m = MAX_SEEDERS ->
      steps 5 svc c = mk (L21 it t (name t)) out sent (Some n))
  /\ MAX_SEEDERS = 5
  /\ (MAX_SEEDERS < m ->
      option_map Z.of_int (NilZero.int_of_string (Py.format_03 m)) = Some m
      /\ String.length (Py.format_03 m)
         = Nat.max 3 (String.length (NilZero.string_of_int (Z.to_int m)))).
Proof.
  intros Hseed Hs m c. apply seeding_eqb in Hseed.
  assert (Hle : m <= MAX_SEEDERS ->
                steps 5 svc c = mk (L21 it t (name t)) out sent (Some n)).
  { intros Hm. apply gtb_false in Hm. subst m c. exec. reflexivity. }
  split; [apply seeders_of_empty|].
  split; [apply seeders_of_max|].
  split; [subst m c; exec; reflexivity|].
  split; [|split; [exact Hle | split; [intros E; apply Hle; lia|]]].
  - intros Hm. apply gtb_true in Hm. subst m c. exec. reflexivity.
  - split; [reflexivity|]. intros Hm.
    assert (Hpos : 0 <= m) by (unfold MAX_SEEDERS in Hm; lia).
    split; [exact (PyFacts.format_03_value _ Hpos)|].
    exact (PyFacts.format_03_length _ Hpos).
Qed.

Lemma C2_seeder_threshold_witness :
  steps 8 (reliable [t_seeders])
    (mk (L11 [t_seeders]) [header_line] [] (Some 0))
  = mk (L21 [] t_seeders "d") [header_line; "[006] d"] [t_seeders] (Some 1)
  /\ steps 8 (reliable [t_both])
       (mk (L11 [t_both]) [header_line] [] (Some 0))
     = mk (L21 [] t_both "a") [header_line; "[010] a"] [t_both] (Some 1).
Proof.
  split.
  - refine (proj1 (proj2 (proj2 (proj2
      (C2_seeder_threshold (reliable [t_seeders]) [] t_seeders
         [header_line] [] 0 _ _)))) _); reflexivity.
  - refine (proj1 (proj2 (proj2 (proj2
      (C2_seeder_threshold (reliable [t_both]) [] t_both
         [header_line] [] 0 _ _)))) _); reflexivity.
Defined.

(** [C3] For a seeding torrent, line 21 computes whether some tracker
    reports a leecher count above 0, and lines 22 to 25 print the [nop]
    line, send one stop command and add 1 to the counter exactly when none
    does.  With no tracker statistics at all the whole iteration prints the
    [nop] line only, sends one stop command and adds exactly 1. *)
Theorem C3_no_peers svc it t out sent n :
  status t = "seeding" ->
  stop_ok svc (List.length sent) t = true ->
  let c := mk (L21 it t (name t)) out sent (Some n) in
  (has_peers_of t = true
   <-> exists st, In st (trackerStats t) /\ 0 < leecherCount st)
  /\ steps 1 svc c = mk (L22 it t (name t) (has_peers_of t)) out sent (Some n)
  /\ (has_peers_of t = false ->
      steps 5 svc c
      = mk (L11 it) (out ++ [("[nop] " ++ name t)%string]) (sent ++ [t])
           (Some (n + 1)))
  /\ (has_peers_of t = true -> steps 2 svc c = mk (L11 it) out sent (Some n))
  /\ (trackerStats t = [] ->
      steps 10 svc (mk (L11 (t :: it)) out sent (Some n))
      = mk (L11 it) (out ++ [("[nop] " ++ name t)%string]) (sent ++ [t])
           (Some (n + 1))).
Proof.
  intros Hseed Hs c. apply seeding_eqb in Hseed.
  split; [apply has_peers_of_true|].
  split; [subst c; exec; reflexivity|].
  split; [intros Hp; subst c; exec; reflexivity|].
  split; [intros Hp; subst c; exec; reflexivity|].
  intros Hnil.
  assert (Hm : (seeders_of t >? MAX_SEEDERS) = false)
    by (rewrite (seeders_of_empty t Hnil); reflexivity).
  assert (Hp : has_peers_of t = false)
    by (unfold has_peers_of; rewrite Hnil; reflexivity).
  exec. reflexivity.
Qed.

Lemma C3_no_peers_witness :
  steps 10 (reliable [t_empty]) (mk (L11 [t_empty]) [header_line] [] (Some 0))
  = mk (L11 []) [header_line; "[nop] b"] [t_empty] (Some 1).
Proof.
  refine (proj2 (proj2 (proj2 (proj2
    (C3_no_peers (reliable [t_empty]) [] t_empty
       [header_line] [] 0 _ _)))) _); reflexivity.
Defined.

(** ** What a run has printed, sent and counted *)

Lemma seeders_line_form t :
  seeders_trigger t = true ->
  threshold_form (seeders_line (seeders_of t) (name t)).
Proof.
  intros H. exists (seeders_of t), (name t).
  unfold seeders_trigger in H.
  destruct (Z.gtb_spec (seeders_of t) MAX_SEEDERS) as [L|L]; [|discriminate].
  repeat split; [exact L | apply PyFacts.format_03_width |].
  apply PyFacts.format_03_value. unfold MAX_SEEDERS in L. lia.
Qed.

Lemma nop_line_form nm : action_form (nop_line nm).
Proof. right. now exists nm. Qed.

Lemma first_lines_form t : Forall action_form (first_lines t).
Proof.
  unfold first_lines. destruct (seeders_trigger t) eqn:E; [|constructor].
  constructor; [|constructor]. left. now apply seeders_line_form.
Qed.

Lemma lines_of_form t : Forall action_form (lines_of t).
Proof.
  unfold lines_of. destruct (status t =? "seeding")%string; [|constructor].
  apply Forall_app. split; [apply first_lines_form|].
  destruct (no_peers_trigger t); [|constructor].
  constructor; [apply nop_line_form | constructor].
Qed.

Lemma done_lines_form done : Forall action_form (flat_map lines_of done).
Proof.
  apply Forall_flat_map, Forall_forall. intros t _. apply lines_of_form.
Qed.

Lemma mid_lines_form svc k it t p ls ss n :
  mid svc k it t p ls ss n -> Forall action_form ls.
Proof.
  destruct 1; try constructor;
    try (left; now apply seeders_line_form);
    try constructor;
    try apply first_lines_form;
    apply Forall_app; (split; [apply first_lines_form|]);
    (constructor; [apply nop_line_form | constructor]).
Qed.

Lemma length_first_lines t :
  Z.of_nat (List.length (first_lines t)) = Z.b2z (seeders_trigger t).
Proof. unfold first_lines. now destruct (seeders_trigger t). Qed.

Lemma length_first_stops t :
  Z.of_nat (List.length (first_stops t)) = Z.b2z (seeders_trigger t).
Proof. unfold first_stops. now destruct (seeders_trigger t). Qed.

Lemma length_lines_of t : Z.of_nat (List.length (lines_of t)) = triggers t.
Proof.
  unfold lines_of, triggers. destruct (status t =? "seeding")%string;
    [|reflexivity].
  rewrite length_app, Nat2Z.inj_add, length_first_lines.
  now destruct (no_peers_trigger t).
Qed.

Lemma length_stops_of t : Z.of_nat (List.length (stops_of t)) = triggers t.
Proof.
  unfold stops_of, triggers. destruct (status t =? "seeding")%string;
    [|reflexivity].
  rewrite length_app, Nat2Z.inj_add, length_first_stops.
  now destruct (no_peers_trigger t).
Qed.

Lemma length_done_lines done :
  Z.of_nat (List.length (flat_map lines_of done)) = total_triggers done.
Proof.
  unfold total_triggers.
  induction done as [|t done IH]; cbn [flat_map fold_right]; [reflexivity|].
  now rewrite length_app, Nat2Z.inj_add, length_lines_of, IH.
Qed.

Lemma length_done_stops done :
  Z.of_nat (List.length (flat_map stops_of done)) = total_triggers done.
Proof.
  unfold total_triggers.
  induction done as [|t done IH]; cbn [flat_map fold_right]; [reflexivity|].
  now rewrite length_app, Nat2Z.inj_add, length_stops_of, IH.
Qed.

(** Inside an iteration the lines lead the commands, and the commands lead
    the counter, by at most one; between branches nothing leads. *)
Lemma mid_counts svc k it t p ls ss n :
  mid svc k it t p ls ss n ->
  let nl := Z.of_nat (List.length ls) in
  let ns := Z.of_nat (List.length ss) in
  n <= ns /\ ns <= nl /\ nl <= n + 1
  /\ (between_branches p = true -> nl = n /\ ns = n).
Proof.
  destruct 1; cbv zeta; cbn [between_branches];
    rewrite ?length_app, ?Nat2Z.inj_add, ?length_first_lines,
      ?length_first_stops;
    cbn [List.length Z.of_nat Pos.of_succ_nat];
    repeat split; try discriminate; try lia;
    destruct (seeders_trigger t); cbn [Z.b2z]; lia.
Qed.

Lemma mid_point svc k it t p ls ss n :
  mid svc k it t p ls ss n -> p <> L06 /\ p <> Exit.
Proof. destruct 1; split; discriminate. Qed.

Lemma summary_of_mid svc k it t p ls ss n out sent cnt :
  mid svc k it t p ls ss n -> summary_of (mk p out sent cnt) = [].
Proof. now destruct 1. Qed.

(** The shape of every configuration of a run after the header line. *)
Lemma Inv_shape svc c :
  Inv svc c -> pc c <> L06 ->
  exists acts,
    Forall action_form acts
    /\ stdout c = header_line :: acts ++ summary_of c
    /\ (forall n, pausedCount c = Some n ->
        let nl := Z.of_nat (List.length acts) in
        let ns := Z.of_nat (List.length (issued c)) in
        n <= ns /\ ns <= nl /\ nl <= n + 1
        /\ (between_branches (pc c) = true -> nl = n /\ ns = n)).
Proof.
  intros HI Hpc. destruct HI.
  - now destruct Hpc.
  - exists []. repeat split; try constructor; discriminate.
  - exists []. repeat split; try constructor; discriminate.
  - exists []. repeat split; try constructor; discriminate.
  - exists []. repeat split; try constructor; discriminate.
  - exists []. repeat split; try constructor; discriminate.
  - exists (flat_map lines_of done).
    split; [apply done_lines_form|]. split.
    + cbn. now rewrite app_nil_r.
    + cbn [pausedCount issued pc mk between_branches]. intros n [= <-].
      cbv zeta. rewrite length_done_lines, length_done_stops. lia.
  - exists (flat_map lines_of done ++ ls).
    split; [|split].
    + apply Forall_app. split; [apply done_lines_form|].
      eapply mid_lines_form; eassumption.
    + match goal with Hm : mid _ _ _ _ _ _ _ _ |- _ =>
        rewrite (summary_of_mid _ _ _ _ _ _ _ _ _ _ _ Hm) end.
      cbn. now rewrite app_nil_r.
    + cbn [pausedCount issued pc mk]. intros n' [= <-]. cbv zeta.
      match goal with Hm : mid _ _ _ _ _ _ _ _ |- _ =>
        pose proof (mid_counts _ _ _ _ _ _ _ _ Hm) as Hc end.
      cbv zeta in Hc.
      rewrite !length_app, !Nat2Z.inj_add, length_done_lines,
        length_done_stops.
      destruct Hc as (Hc1 & Hc2 & Hc3 & Hc4).
      split; [lia|]. split; [lia|]. split; [lia|].
      intros Hb. destruct (Hc4 Hb). split; lia.
  - exists (flat_map lines_of ts).
    split; [apply done_lines_form|]. split.
    + cbn. now rewrite app_nil_r.
    + cbn [pausedCount issued pc mk between_branches]. intros n [= <-].
      cbv zeta. rewrite length_done_lines, length_done_stops. lia.
  - exists (flat_map lines_of ts).
    split; [apply done_lines_form|]. split.
    + reflexivity.
    + cbn [pausedCount issued pc mk between_branches]. intros n [= <-].
      cbv zeta. rewrite length_done_lines, length_done_stops. lia.
Qed.

(** Telling the three kinds of line apart by their first characters. *)
Lemma action_form_bracket line :
  action_form line -> is_action_line line = true.
Proof. intros [(s & nm & -> & _)|(nm & ->)]; reflexivity. Qed.

Lemma header_not_action : is_action_line header_line = false.
Proof. reflexivity. Qed.

Lemma summary_not_action n : is_action_line (summary_line n) = false.
Proof. reflexivity. Qed.

Lemma summary_not_header n : summary_line n <> header_line.
Proof. unfold summary_line. cbn. discriminate. Qed.

Lemma filter_all {A} (f : A -> bool) l :
  Forall (fun x => f x = true) l -> filter f l = l.
Proof.
  induction 1 as [|x l Hx _ IH]; cbn [filter]; [reflexivity|].
  now rewrite Hx, IH.
Qed.

Lemma action_lines_shape acts c :
  Forall action_form acts ->
  action_lines (header_line :: acts ++ summary_of c) = acts.
Proof.
  intros H. unfold action_lines. cbn [filter].
  rewrite header_not_action, filter_app, filter_all.
  - unfold summary_of. destruct (pc c), (pausedCount c); cbn [filter];
      rewrite ?summary_not_action; apply app_nil_r.
  - eapply Forall_impl; [|exact H]. apply action_form_bracket.
Qed.

Lemma stops_of_In t x : In x (stops_of t) -> x = t /\ seeding t.
Proof.
  unfold stops_of, first_stops.
  destruct (status t =? "seeding")%string eqn:E; [|intros []].
  apply String.eqb_eq in E.
  destruct (seeders_trigger t), (no_peers_trigger t); cbn;
    intuition (subst; auto).
Qed.

Lemma mid_stops_In svc k it t p ls ss n x :
  mid svc k it t p ls ss n -> In x ss -> x = t /\ seeding t.
Proof.
  destruct 1; cbn [In]; try (intros []; fail);
    rewrite ?in_app_iff; unfold first_stops;
    destruct (seeders_trigger t); cbn [In]; intuition (subst; auto).
Qed.

(** Stop commands are only ever sent for seeding torrents. *)
Lemma Inv_issued_seeding svc c x : Inv svc c -> In x (issued c) -> seeding x.
Proof.
  assert (Hdone : forall done, In x (flat_map stops_of done) -> seeding x).
  { intros done Hin. apply in_flat_map in Hin. destruct Hin as (t & _ & Hin).
    apply stops_of_In in Hin. now destruct Hin as [-> ?]. }
  destruct 1; cbn [issued mk]; try (intros []; fail); try apply Hdone.
  rewrite in_app_iff. intros [Hin|Hin]; [now apply (Hdone done)|].
  match goal with Hm : mid _ _ _ _ _ _ _ _ |- _ =>
    destruct (mid_stops_In _ _ _ _ _ _ _ _ _ Hm Hin) as [-> ?] end.
  assumption.
Qed.

(** [C4] A torrent whose status is not "seeding" costs the loop two
    statements (lines 11 and 12) that print nothing, send nothing and leave
    the counter alone, whatever its tracker statistics; and no run ever
    sends a stop command for such a torrent. *)
Theorem C4_not_seeding_skipped svc t :
  status t <> "seeding" ->
  (forall it out sent cnt,
      steps 1 svc (mk (L11 (t :: it)) out sent cnt)
      = mk (L12 it t) out sent cnt
      /\ steps 2 svc (mk (L11 (t :: it)) out sent cnt)
         = mk (L11 it) out sent cnt)
  /\ (forall c, reachable svc c -> ~ In t (issued c)).
Proof.
  intros Hst. split.
  - intros it out sent cnt.
    assert (E : (status t =? "seeding")%string = false)
      by now apply String.eqb_neq.
    split; exec; reflexivity.
  - intros c Hr Hin. apply Hst.
    eapply Inv_issued_seeding; [apply reachable_Inv|]; eassumption.
Qed.

Lemma C4_not_seeding_skipped_witness :
  steps 2 (reliable [t_stopped])
    (mk (L11 [t_stopped]) [header_line] [] (Some 0))
  = mk (L11 []) [header_line] [] (Some 0)
  /\ ~ In t_stopped (issued (main (reliable [t_both; t_stopped]))).
Proof.
  assert (H : status t_stopped <> "seeding") by discriminate.
  destruct (C4_not_seeding_skipped (reliable [t_stopped]) t_stopped H)
    as [Hloc _].
  destruct (C4_not_seeding_skipped (reliable [t_both; t_stopped]) t_stopped H)
    as [_ Hglob].
  split.
  - exact (proj2 (Hloc [] [header_line] [] (Some 0))).
  - apply Hglob, main_reachable.
Defined.

(** ** The whole run *)

Lemma Inv_at_Exit svc c :
  Inv svc c -> pc c = Exit ->
  exists ts,
    get_torrents svc = Some ts
    /\ c = mk Exit
             (header_line :: flat_map lines_of ts
                ++ [summary_line (total_triggers ts)])
             (flat_map stops_of ts)
             (Some (total_triggers ts)).
Proof.
  destruct 1; cbn [pc mk]; try discriminate.
  - intros ->. match goal with Hm : mid _ _ _ _ _ _ _ _ |- _ =>
      now destruct (mid_point _ _ _ _ _ _ _ _ Hm) end.
  - intros _. now exists ts.
Qed.

(** Against a service that refuses nothing the script runs to completion. *)
Lemma reliable_completes ts : pc (main (reliable ts)) = Exit.
Proof.
  pose proof (main_halted (reliable ts)) as Hh.
  pose proof (reachable_Inv _ _ (main_reachable (reliable ts))) as HI.
  destruct HI; cbn [pc mk halted] in *; try discriminate; try reflexivity.
  match goal with Hm : mid _ _ _ _ _ _ _ _ |- _ =>
    destruct Hm; cbn [pc mk halted stop_ok reliable] in *; discriminate end.
Qed.

(** [C5] When the run completes, its last line is the text "Paused "
    followed by the decimal numeral of the sum, over the listed torrents,
    of the number of conditions that hold for each (0, 1 or 2); that sum
    is also the number of stop commands sent; and for every list a run
    against a service that refuses nothing does complete. *)
Theorem C5_summary_count svc ts :
  get_torrents svc = Some ts ->
  pc (main svc) = Exit ->
  last (stdout (main svc)) ""
  = ("Paused " ++ NilZero.string_of_int (Z.to_int (total_triggers ts)))%string
  /\ last (stdout (main svc)) "" = summary_line (total_triggers ts)
  /\ pausedCount (main svc) = Some (total_triggers ts)
  /\ option_map Z.of_int
       (NilZero.int_of_string
          (NilZero.string_of_int (Z.to_int (total_triggers ts))))
     = Some (total_triggers ts)
  /\ Py.int_of_str (Py.str (total_triggers ts)) = Some (total_triggers ts)
  /\ total_triggers ts = fold_right (fun t acc => triggers t + acc) 0 ts
  /\ (forall t, In t ts ->
      triggers t
      = if (status t =? "seeding")%string
        then Z.b2z (seeders_of t >? MAX_SEEDERS)
             + Z.b2z (negb (has_peers_of t))
        else 0)
  /\ total_triggers ts = Z.of_nat (List.length (issued (main svc)))
  /\ pc (main (reliable ts)) = Exit.
Proof.
  intros Hg Hpc.
  destruct (Inv_at_Exit svc (main svc)) as (ts' & Hg' & E);
    [apply reachable_Inv, main_reachable | exact Hpc |].
  assert (ts' = ts) by congruence. subst ts'. rewrite E. cbn [stdout mk
    pausedCount issued].
  assert (Hlast : last (header_line :: flat_map lines_of ts
                          ++ [summary_line (total_triggers ts)]) ""
                  = summary_line (total_triggers ts))
    by (rewrite app_comm_cons; apply last_last).
  split; [exact Hlast|]. split; [exact Hlast|].
  split; [reflexivity|].
  split; [exact (PyFacts.str_value (total_triggers ts))|].
  split; [apply PyFacts.str_value|].
  split; [reflexivity|]. split; [reflexivity|].
  split; [symmetry; apply length_done_stops | apply reliable_completes].
Qed.

Lemma C5_summary_count_witness :
  last (stdout (main (reliable [t_both; t_stopped; t_empty; t_neither;
                                t_seeders])))
       "" = "Paused 4"
  /\ 4 = Z.of_nat (List.length
                     (issued (main (reliable [t_both; t_stopped; t_empty;
                                              t_neither; t_seeders]))))
  /\ last (stdout (main (reliable [t_stopped; t_neither]))) "" = "Paused 0".
Proof.
  pose proof (C5_summary_count
                (reliable [t_both; t_stopped; t_empty; t_neither; t_seeders])
                [t_both; t_stopped; t_empty; t_neither; t_seeders]
                eq_refl eq_refl) as (H1 & _ & _ & _ & _ & _ & _ & H8 & _).
  pose proof (C5_summary_count
                (reliable [t_stopped; t_neither]) [t_stopped; t_neither]
                eq_refl eq_refl) as (H0 & _).
  split; [exact H1 | split; [exact H8 | exact H0]].
Defined.

Lemma Inv_at_L06 svc c : Inv svc c -> pc c = L06 -> c = initial.
Proof.
  destruct 1; cbn [pc mk]; try discriminate; [reflexivity|].
  intros ->. match goal with Hm : mid _ _ _ _ _ _ _ _ |- _ =>
    now destruct (mid_point _ _ _ _ _ _ _ _ Hm) end.
Qed.

(** Lines and commands, action by action. *)
Lemma first_lines_actions t :
  first_lines t = map action_line (first_actions t).
Proof. unfold first_lines, first_actions. now destruct (seeders_trigger t). Qed.

Lemma first_stops_actions t : first_stops t = map fst (first_actions t).
Proof. unfold first_stops, first_actions. now destruct (seeders_trigger t). Qed.

Lemma lines_of_actions t : lines_of t = map action_line (actions_of t).
Proof.
  unfold lines_of, actions_of. destruct (status t =? "seeding")%string;
    [|reflexivity].
  rewrite map_app, first_lines_actions. now destruct (no_peers_trigger t).
Qed.

Lemma stops_of_actions t : stops_of t = map fst (actions_of t).
Proof.
  unfold stops_of, actions_of. destruct (status t =? "seeding")%string;
    [|reflexivity].
  rewrite map_app, first_stops_actions. now destruct (no_peers_trigger t).
Qed.

Lemma done_lines_actions done :
  flat_map lines_of done = map action_line (flat_map actions_of done).
Proof.
  induction done as [|t done IH]; cbn [flat_map map]; [reflexivity|].
  now rewrite map_app, lines_of_actions, IH.
Qed.

Lemma done_stops_actions done :
  flat_map stops_of done = map fst (flat_map actions_of done).
Proof.
  induction done as [|t done IH]; cbn [flat_map map]; [reflexivity|].
  now rewrite map_app, stops_of_actions, IH.
Qed.

Lemma first_actions_ok t : seeding t -> Forall action_ok (first_actions t).
Proof.
  intros Hs. unfold first_actions.
  destruct (seeders_trigger t) eqn:E; constructor; [|constructor].
  now split.
Qed.

Lemma actions_of_ok t : Forall action_ok (actions_of t).
Proof.
  unfold actions_of. destruct (status t =? "seeding")%string eqn:E;
    [|constructor].
  apply String.eqb_eq in E. apply Forall_app.
  split; [now apply first_actions_ok|].
  destruct (no_peers_trigger t) eqn:En; constructor; [|constructor].
  now split.
Qed.

Lemma done_actions_ok done : Forall action_ok (flat_map actions_of done).
Proof.
  apply Forall_flat_map, Forall_forall. intros t _. apply actions_of_ok.
Qed.

Lemma mid_actions svc k it t p ls ss n :
  mid svc k it t p ls ss n ->
  exists acts,
    ls = map action_line acts /\ Forall action_ok acts
    /\ commands_for acts ss.
Proof.
  assert (Hthr : seeding t -> seeders_trigger t = true ->
                 Forall action_ok [(t, true)])
    by (intros; constructor; [now split | constructor]).
  assert (Hnop : seeding t -> no_peers_trigger t = true ->
                 Forall action_ok (first_actions t ++ [(t, false)])).
  { intros. apply Forall_app. split; [now apply first_actions_ok|].
    constructor; [now split | constructor]. }
  destruct 1.
  1-5: exists []; repeat split; [constructor | now left].
  - exists [(t, true)]. repeat split; [now apply Hthr|].
    right. now exists [], (t, true).
  - exists [(t, true)]. repeat split; [now apply Hthr | now left].
  - exists [(t, true)]. repeat split; [now apply Hthr | now left].
  - exists (first_actions t).
    split; [apply first_lines_actions|].
    split; [now apply first_actions_ok | left; apply first_stops_actions].
  - exists (first_actions t).
    split; [apply first_lines_actions|].
    split; [now apply first_actions_ok | left; apply first_stops_actions].
  - exists (first_actions t).
    split; [apply first_lines_actions|].
    split; [now apply first_actions_ok | left; apply first_stops_actions].
  - exists (first_actions t ++ [(t, false)]).
    split; [now rewrite map_app, first_lines_actions|].
    split; [now apply Hnop|].
    right. exists (first_actions t), (t, false).
    split; [reflexivity | apply first_stops_actions].
  - exists (first_actions t ++ [(t, false)]).
    split; [now rewrite map_app, first_lines_actions|].
    split; [now apply Hnop|].
    left. now rewrite map_app, first_stops_actions.
  - exists (first_actions t ++ [(t, false)]).
    split; [now rewrite map_app, first_lines_actions|].
    split; [now apply Hnop|].
    left. now rewrite map_app, first_stops_actions.
Qed.

(** After the header, standard output is the lines of a list of actions,
    and the commands sent are those of the same actions. *)
Lemma Inv_actions svc c :
  Inv svc c -> pc c <> L06 ->
  exists acts,
    stdout c = header_line :: map action_line acts ++ summary_of c
    /\ Forall action_ok acts
    /\ commands_for acts (issued c).
Proof.
  intros HI Hpc. destruct HI.
  - now destruct Hpc.
  - exists []. repeat split; [constructor | now left].
  - exists []. repeat split; [constructor | now left].
  - exists []. repeat split; [constructor | now left].
  - exists []. repeat split; [constructor | now left].
  - exists []. repeat split; [constructor | now left].
  - exists (flat_map actions_of done).
    split; [|split; [apply done_actions_ok | left; apply done_stops_actions]].
    cbn [stdout mk]. rewrite <- done_lines_actions.
    unfold summary_of. cbn [pc mk]. now rewrite app_nil_r.
  - match goal with Hm : mid _ _ _ _ _ _ _ _ |- _ =>
      destruct (mid_actions _ _ _ _ _ _ _ _ Hm) as (ev & El & Hok & Hcmd);
      pose proof (summary_of_mid _ _ _ _ _ _ _ _
                    (header_line :: flat_map lines_of done ++ ls)
                    (flat_map stops_of done ++ ss)
                    (Some (total_triggers done + n)) Hm) as Esum
    end.
    exists (flat_map actions_of done ++ ev).
    split; [|split].
    + rewrite Esum. cbn [stdout mk].
      now rewrite app_nil_r, map_app, <- done_lines_actions, El.
    + apply Forall_app. split; [apply done_actions_ok | exact Hok].
    + cbn [issued mk]. destruct Hcmd as [->|(pre & a & -> & ->)].
      * left. now rewrite map_app, done_stops_actions.
      * right. exists (flat_map actions_of done ++ pre), a.
        split; [now rewrite app_assoc|].
        now rewrite map_app, done_stops_actions.
  - exists (flat_map actions_of ts).
    split; [|split; [apply done_actions_ok | left; apply done_stops_actions]].
    cbn [stdout mk]. rewrite <- done_lines_actions.
    unfold summary_of. cbn [pc mk]. now rewrite app_nil_r.
  - exists (flat_map actions_of ts).
    split; [|split; [apply done_actions_ok | left; apply done_stops_actions]].
    cbn [stdout mk]. now rewrite <- done_lines_actions.
Qed.

Lemma action_ok_form a : action_ok a -> action_form (action_line a).
Proof.
  destruct a as [t [|]]; unfold action_ok, action_line; cbn [fst snd];
    intros [_ H].
  - left. now apply seeders_line_form.
  - apply nop_line_form.
Qed.

(** [C6] After the header, standard output is one line per action, and the
    actions are the stop commands, in order (the last line may announce a
    command that is still to be sent).  The line of a stop caused by the
    seeder threshold is an opening bracket, the tag of that torrent's
    seeder count, a closing bracket, a space and that torrent's name; the
    tag is the decimal numeral of the count with leading zeros up to
    three characters.  The line of a stop caused by the absence of peers
    is the text "[nop] " and that torrent's name.  A run that completes
    ends with the text "Paused " and the decimal numeral of the counter. *)
Theorem C6_output_lines svc c :
  reachable svc c -> pc c <> L06 ->
  exists acts,
    stdout c = header_line :: acts ++ summary_of c
    /\ action_lines (stdout c) = acts
    /\ Forall (fun line => threshold_form line \/ nop_form line) acts
    /\ (pc c = Exit ->
        exists n, pausedCount c = Some n
                  /\ last (stdout c) "" = ("Paused " ++ Py.str n)%string)
    /\ stdout c
       = "Pausing all with >5 seeders or no leechers"
           :: acts
           ++ match pc c, pausedCount c with
              | Exit, Some n =>
                  [("Paused " ++ NilZero.string_of_int (Z.to_int n))%string]
              | _, _ => []
              end
    /\ exists events : list (Torrent * bool),
         acts
         = map (fun e : Torrent * bool =>
                  if snd e
                  then ("[" ++ Py.format_03 (seeders_of (fst e)) ++ "] "
                            ++ name (fst e))%string
                  else ("[nop] " ++ name (fst e))%string)
               events
         /\ (issued c = map fst events
             \/ exists pre e, events = pre ++ [e] /\ issued c = map fst pre)
         /\ Forall
              (fun e : Torrent * bool =>
                 status (fst e) = "seeding"
                 /\ if snd e
                    then MAX_SEEDERS < seeders_of (fst e)
                         /\ option_map Z.of_int
                              (NilZero.int_of_string
                                 (Py.format_03 (seeders_of (fst e))))
                            = Some (seeders_of (fst e))
                         /\ String.length (Py.format_03 (seeders_of (fst e)))
                            = Nat.max 3
                                (String.length
                                   (NilZero.string_of_int
                                      (Z.to_int (seeders_of (fst e)))))
                    else forall st, In st (trackerStats (fst e)) ->
                                    ~ 0 < leecherCount st)
              events.
Proof.
  intros Hr Hpc. pose proof (reachable_Inv _ _ Hr) as HI.
  destruct (Inv_actions svc c HI Hpc) as (events & Hout & Hok & Hcmd).
  assert (Hform : Forall action_form (map action_line events)).
  { apply Forall_map. eapply Forall_impl; [|exact Hok].
    apply action_ok_form. }
  exists (map action_line events).
  split; [exact Hout|]. split; [|split; [exact Hform|split; [|split]]].
  - rewrite Hout. now apply action_lines_shape.
  - intros Hexit.
    destruct (Inv_at_Exit svc c HI Hexit) as (ts & _ & ->).
    exists (total_triggers ts). split; [reflexivity|].
    cbn [stdout mk]. rewrite app_comm_cons. apply last_last.
  - exact Hout.
  - exists events. split; [reflexivity|]. split; [exact Hcmd|].
    eapply Forall_impl; [|exact Hok].
    intros [t [|]]; unfold action_ok; cbn [fst snd]; intros [Hs Ht].
    + split; [exact Hs|]. unfold seeders_trigger in Ht.
      assert (Hm : MAX_SEEDERS < seeders_of t)
        by (destruct (Z.gtb_spec (seeders_of t) MAX_SEEDERS);
            [assumption | discriminate]).
      assert (Hpos : 0 <= seeders_of t) by (unfold MAX_SEEDERS in Hm; lia).
      split; [exact Hm|].
      split; [exact (PyFacts.format_03_value _ Hpos)|].
      exact (PyFacts.format_03_length _ Hpos).
    + split; [exact Hs|]. apply has_peers_of_false.
      unfold no_peers_trigger in Ht. now destruct (has_peers_of t).
Qed.

Lemma C6_output_lines_witness :
  exists events : list (Torrent * bool),
    action_lines (stdout (main (reliable [t_both; t_seeders])))
    = map (fun e : Torrent * bool =>
             if snd e
             then ("[" ++ Py.format_03 (seeders_of (fst e)) ++ "] "
                       ++ name (fst e))%string
             else ("[nop] " ++ name (fst e))%string)
          events
    /\ map fst events = issued (main (reliable [t_both; t_seeders]))
    /\ last (stdout (main (reliable [t_both; t_seeders]))) "" = "Paused 3".
Proof.
  destruct (C6_output_lines (reliable [t_both; t_seeders])
              (main (reliable [t_both; t_seeders])))
    as (acts & _ & Hacts & _ & Hlast & _ & events & Hev & Hcmd & _).
  - apply main_reachable.
  - rewrite reliable_completes. discriminate.
  - exists [(t_both, true); (t_both, false); (t_seeders, true)].
    split; [reflexivity|]. split; [reflexivity|].
    destruct (Hlast (reliable_completes _)) as (n & Hn & Hl).
    rewrite Hl. injection Hn as <-. reflexivity.
Defined.

Example C6_lines_of_a_run :
  stdout (main (reliable [t_both; t_seeders]))
  = ["Pausing all with >5 seeders or no leechers"; "[010] a"; "[nop] a";
     "[006] d"; "Paused 3"].
Proof. reflexivity. Qed.

(** ** Failures of the remote service *)

(** A failing remote call ends the program in the very next statement. *)
Lemma failing_call_step svc c e :
  failing_call svc c = Some e ->
  step svc c
  = Some (mk (Raised e) (stdout c) (issued c ++ failing_stop e)
             (pausedCount c)).
Proof.
  destruct c as [p out sent cnt]. unfold failing_call, step. cbn [pc].
  destruct p; try discriminate;
    unfold rpc_stop, raise, goto, mk; cbn [pc stdout issued pausedCount].
  - destruct (connect_ok svc); [discriminate|]. intros [= <-].
    cbn [failing_stop]. now rewrite app_nil_r.
  - destruct (get_torrents svc); [discriminate|]. intros [= <-].
    cbn [failing_stop]. now rewrite app_nil_r.
  - destruct (stop_ok svc (List.length sent) t); [discriminate|].
    now intros [= <-].
  - destruct (stop_ok svc (List.length sent) t); [discriminate|].
    now intros [= <-].
Qed.

Lemma no_summary_before_Exit svc c n :
  Inv svc c -> pc c <> Exit -> ~ In (summary_line n) (stdout c).
Proof.
  intros HI Hpc Hin.
  destruct (pc c) eqn:Ep;
    try (apply Inv_at_L06 in HI; [subst c; exact Hin | exact Ep]).
  all: try (destruct (Inv_shape svc c HI) as (acts & Hform & Hout & _);
            [rewrite Ep; discriminate|];
            rewrite Hout in Hin; unfold summary_of in Hin; rewrite Ep in Hin;
            rewrite app_nil_r in Hin; destruct Hin as [E|Hin];
            [ now apply (summary_not_header n)
            | rewrite Forall_forall in Hform;
              apply Hform, action_form_bracket in Hin;
              rewrite summary_not_action in Hin; discriminate ]).
  now destruct Hpc.
Qed.

(** [C7] When the listing call or a stop command raises, the next
    configuration is the last one of the run: the exception is uncaught,
    nothing more is printed (so no summary line), no later torrent is
    looked at and no further stop command is sent. *)
Theorem C7_abort_on_failure svc c e k :
  reachable svc c ->
  failing_call svc c = Some e ->
  steps (S k) svc c
  = mk (Raised e) (stdout c) (issued c ++ failing_stop e) (pausedCount c)
  /\ main svc = steps (S k) svc c
  /\ pc (main svc) = Raised e
  /\ stdout (main svc) = stdout c
  /\ issued (main svc) = issued c ++ failing_stop e
  /\ (forall n, ~ In (summary_line n) (stdout (main svc))).
Proof.
  intros Hr Hf.
  assert (Hs : steps (S k) svc c
               = mk (Raised e) (stdout c) (issued c ++ failing_stop e)
                    (pausedCount c)).
  { cbn [steps]. rewrite (failing_call_step svc c e Hf).
    now apply steps_halted. }
  assert (Hm : main svc = steps (S k) svc c).
  { symmetry. apply halted_is_main; [now apply reachable_steps|].
    now rewrite Hs. }
  split; [exact Hs|]. split; [exact Hm|].
  rewrite Hm, Hs. cbn [pc stdout issued mk].
  repeat split. intros n.
  apply (no_summary_before_Exit svc c n); [now apply reachable_Inv|].
  intros Ep. unfold failing_call in Hf. rewrite Ep in Hf. discriminate.
Qed.

Lemma C7_abort_on_failure_witness :
  steps 1 (refusing [t_both; t_empty])
    (steps 10 (refusing [t_both; t_empty]) initial)
  = mk (Raised (StopFailed t_both))
       (stdout (steps 10 (refusing [t_both; t_empty]) initial))
       (issued (steps 10 (refusing [t_both; t_empty]) initial) ++ [t_both])
       (pausedCount (steps 10 (refusing [t_both; t_empty]) initial))
  /\ main listing_fails = mk (Raised ListFailed) [header_line] [] None.
Proof.
  split.
  - refine (proj1 (C7_abort_on_failure (refusing [t_both; t_empty])
                     (steps 10 (refusing [t_both; t_empty]) initial)
                     (StopFailed t_both) 0 _ _)).
    + apply reachable_steps, reach_initial.
    + reflexivity.
  - refine (eq_trans (proj1 (proj2 (C7_abort_on_failure listing_fails
                                      (steps 2 listing_fails initial)
                                      ListFailed 0 _ _))) _).
    + apply reachable_steps, reach_initial.
    + reflexivity.
    + reflexivity.
Defined.

Example C7_later_torrents_untouched :
  main (refusing [t_both; t_empty])
  = mk (Raised (StopFailed t_both))
       ["Pausing all with >5 seeders or no leechers"; "[010] a"]
       [t_both] (Some 0).
Proof. reflexivity. Qed.

(** [C8] The first statement prints the header line, with the threshold 5
    spelled out, before the connection is attempted; it is printed once
    (no later line equals it), it comes on top of the per-action and
    summary lines, and it is all the output there is when the connection
    fails. *)
Theorem C8_header_first svc c :
  reachable svc c -> c <> initial ->
  header_line = "Pausing all with >5 seeders or no leechers"
  /\ steps 1 svc initial = mk L07 [header_line] [] None
  /\ (exists rest, stdout c = header_line :: rest /\ ~ In header_line rest)
  /\ (connect_ok svc = false ->
      main svc = mk (Raised ConnectFailed) [header_line] [] None).
Proof.
  intros Hr Hne. pose proof (reachable_Inv _ _ Hr) as HI.
  split; [reflexivity|]. split; [reflexivity|]. split.
  - destruct (Inv_shape svc c HI) as (acts & Hform & Hout & _).
    { intros Ep. apply Hne. now apply (Inv_at_L06 svc). }
    exists (acts ++ summary_of c). split; [exact Hout|].
    rewrite in_app_iff. intros [Hin|Hin].
    + rewrite Forall_forall in Hform.
      apply Hform, action_form_bracket in Hin.
      rewrite header_not_action in Hin. discriminate.
    + unfold summary_of in Hin.
      destruct (pc c), (pausedCount c); cbn [In] in Hin;
        try contradiction.
      destruct Hin as [E|[]]. now apply (summary_not_header z).
  - intros Hc. symmetry. apply halted_is_main; [|reflexivity].
    change (mk (Raised ConnectFailed) [header_line] [] None)
      with (raise ConnectFailed (goto L07 (print header_line initial))).
    eapply reach_step; [eapply reach_step; [apply reach_initial|reflexivity]|].
    unfold step. cbn [pc goto print]. now rewrite Hc.
Qed.

Lemma C8_header_first_witness :
  header_line = "Pausing all with >5 seeders or no leechers"
  /\ steps 1 unreachable_host initial = mk L07 [header_line] [] None
  /\ (exists rest,
        stdout (main unreachable_host) = header_line :: rest
        /\ ~ In header_line rest)
  /\ (connect_ok unreachable_host = false ->
      main unreachable_host
      = mk (Raised ConnectFailed) [header_line] [] None).
Proof.
  apply C8_header_first.
  - apply main_reachable.
  - discriminate.
Defined.

(** [C9] In both branches the line is printed by the statement before the
    one that sends the stop command.  When that command is refused the run
    ends there: the line is on standard output, the command is on record,
    and the counter is what it was. *)
Theorem C9_print_before_stop svc it t nm seeders out sent cnt k :
  stop_ok svc (List.length sent) t = false ->
  steps 1 svc (mk (L17 it t nm seeders) out sent cnt)
  = mk (L18 it t nm) (out ++ [seeders_line seeders nm]) sent cnt
  /\ steps 1 svc (mk (L23 it t nm) out sent cnt)
     = mk (L24 it t nm) (out ++ [nop_line nm]) sent cnt
  /\ steps (2 + k) svc (mk (L17 it t nm seeders) out sent cnt)
     = mk (Raised (StopFailed t)) (out ++ [seeders_line seeders nm])
          (sent ++ [t]) cnt
  /\ steps (2 + k) svc (mk (L23 it t nm) out sent cnt)
     = mk (Raised (StopFailed t)) (out ++ [nop_line nm]) (sent ++ [t]) cnt.
Proof.
  intros Hs. split; [reflexivity|]. split; [reflexivity|].
  split; rewrite (steps_add 2 k).
  - assert (E : steps 2 svc (mk (L17 it t nm seeders) out sent cnt)
                = mk (Raised (StopFailed t)) (out ++ [seeders_line seeders nm])
                     (sent ++ [t]) cnt) by (exec; reflexivity).
    rewrite E. now apply steps_halted.
  - assert (E : steps 2 svc (mk (L23 it t nm) out sent cnt)
                = mk (Raised (StopFailed t)) (out ++ [nop_line nm])
                     (sent ++ [t]) cnt) by (exec; reflexivity).
    rewrite E. now apply steps_halted.
Qed.

Lemma C9_print_before_stop_witness :
  steps (2 + 0) (refusing [t_seeders])
    (mk (L17 [] t_seeders "d" 6) [header_line] [] (Some 0))
  = mk (Raised (StopFailed t_seeders)) [header_line; "[006] d"] [t_seeders]
       (Some 0).
Proof.
  refine (proj1 (proj2 (proj2
    (C9_print_before_stop (refusing [t_seeders]) [] t_seeders "d" 6
       [header_line] [] (Some 0) 0 _)))).
  reflexivity.
Defined.

(** ** The counter against the lines and the commands *)

(** A statement leaves the counter alone or adds 1 to it. *)
Lemma step_counter svc c c' n :
  Inv svc c -> pausedCount c = Some n -> step svc c = Some c' ->
  exists n', pausedCount c' = Some n' /\ n <= n' /\ n' <= n + 1.
Proof.
  intros HI Hn Hs.
  assert (Hkeep : forall p, exists n',
             pausedCount (goto p c) = Some n' /\ n <= n' /\ n' <= n + 1).
  { intros p. exists n. cbn [pausedCount goto]. split; [exact Hn | lia]. }
  destruct HI; cbn [pausedCount mk] in Hn; try discriminate;
    unfold step in Hs; cbn [pc mk] in Hs.
  - destruct it; injection Hs as <-; apply Hkeep.
  - match goal with Hm : mid _ _ _ _ _ _ _ _ |- _ => destruct Hm end;
      try discriminate; injection Hs as <-;
      unfold rpc_stop, incr, raise, print, goto, mk;
      cbn [pc stdout issued pausedCount];
      repeat match goal with
        | |- context [if ?b then _ else _] => destruct b
        end;
      cbn [pausedCount]; eexists; (split; [reflexivity|]);
      injection Hn as <-; lia.
  - injection Hs as <-. cbn [pausedCount mk].
    eexists. split; [reflexivity|]. injection Hn as <-. lia.
Qed.

(** [C10] as stated fails.  The counter does lag: with one seeding torrent
    without tracker statistics, after twelve statements line 23 has printed its line and
    the counter still reads 0. *)
Lemma C10_counter_lags_behind_lines :
  reachable (reliable [t_empty]) (steps 12 (reliable [t_empty]) initial)
  /\ pc (steps 12 (reliable [t_empty]) initial) = L24 [] t_empty "b"
  /\ pausedCount (steps 12 (reliable [t_empty]) initial) = Some 0
  /\ action_lines (stdout (steps 12 (reliable [t_empty]) initial))
     = ["[nop] b"]
  /\ ~ (Z.of_nat (List.length
                    (action_lines
                       (stdout (steps 12 (reliable [t_empty]) initial))))
        = 0).
Proof.
  split; [apply reachable_steps, reach_initial|].
  repeat split. discriminate.
Qed.

(** [C10, amended] Whenever the counter is bound, the commands sent are at
    least the counter, the per-action lines printed are at least the
    commands sent, and the lines are at most one ahead of the counter; the
    three are equal at every point that is not between a print and its
    increment (lines 18, 19, 24, 25) or after an abort.  The counter never
    decreases, and on completion the summary line shows it, equal to the
    number of per-action lines. *)
Theorem C10_counter_invariant svc c n :
  reachable svc c -> pausedCount c = Some n ->
  let nl := Z.of_nat (List.length (action_lines (stdout c))) in
  let ns := Z.of_nat (List.length (issued c)) in
  n <= ns /\ ns <= nl /\ nl <= n + 1
  /\ (between_branches (pc c) = true -> nl = n /\ ns = n)
  /\ (forall c', step svc c = Some c' ->
                 exists n', pausedCount c' = Some n' /\ n <= n')
  /\ (pc c = Exit -> last (stdout c) "" = summary_line n /\ n = nl).
Proof.
  intros Hr Hn. pose proof (reachable_Inv _ _ Hr) as HI. cbv zeta.
  destruct (Inv_shape svc c HI) as (acts & Hform & Hout & Hcount).
  { intros Ep. apply (Inv_at_L06 svc) in Ep; [|exact HI].
    subst c. discriminate. }
  specialize (Hcount n Hn). cbv zeta in Hcount.
  destruct Hcount as (H1 & H2 & H3 & H4).
  rewrite Hout, (action_lines_shape acts c Hform).
  split; [exact H1|]. split; [exact H2|]. split; [exact H3|].
  split; [exact H4|]. split.
  - intros c' Hs. destruct (step_counter svc c c' n HI Hn Hs) as (n' & E & L & _).
    now exists n'.
  - intros Ep. split.
    + unfold summary_of. rewrite Ep, Hn. rewrite app_comm_cons.
      apply last_last.
    + symmetry. apply H4. now rewrite Ep.
Qed.

Lemma C10_counter_invariant_witness :
  let c := main (refusing [t_both; t_stopped]) in
  let nl := Z.of_nat (List.length (action_lines (stdout c))) in
  let ns := Z.of_nat (List.length (issued c)) in
  0 <= ns /\ ns <= nl /\ nl <= 0 + 1
  /\ (between_branches (pc c) = true -> nl = 0 /\ ns = 0)
  /\ (forall c', step (refusing [t_both; t_stopped]) c = Some c' ->
                 exists n', pausedCount c' = Some n' /\ 0 <= n')
  /\ (pc c = Exit -> last (stdout c) "" = summary_line 0 /\ 0 = nl).
Proof.
  apply (C10_counter_invariant (refusing [t_both; t_stopped])
           (main (refusing [t_both; t_stopped])) 0).
  - apply main_reachable.
  - reflexivity.
Defined.

Example C10_aborted_run_counts :
  pausedCount (main (refusing [t_both; t_stopped])) = Some 0
  /\ action_lines (stdout (main (refusing [t_both; t_stopped]))) = ["[010] a"]
  /\ issued (main (refusing [t_both; t_stopped])) = [t_both].
Proof. repeat split. Qed.

Example C10_completed_run_counts :
  pausedCount (main (reliable [t_both; t_stopped])) = Some 2
  /\ action_lines (stdout (main (reliable [t_both; t_stopped])))
     = ["[010] a"; "[nop] a"]
  /\ issued (main (reliable [t_both; t_stopped])) = [t_both; t_both]
  /\ last (stdout (main (reliable [t_both; t_stopped]))) "" = "Paused 2".
Proof. repeat split. Qed.

(** * Further properties of the script *)

(** ** The remaining case of the loop body *)

(** [X1] A seeding torrent whose largest seeder count is at most the
    threshold and for which some tracker reports a leecher goes through
    lines 11 to 22 without printing, without sending a command and without
    touching the counter, whatever the service would answer. *)
Theorem neither_condition_no_action svc it t out sent cnt :
  status t = "seeding" ->
  seeders_of t <= MAX_SEEDERS ->
  (exists st, In st (trackerStats t) /\ 0 < leecherCount st) ->
  steps 7 svc (mk (L11 (t :: it)) out sent cnt) = mk (L11 it) out sent cnt.
Proof.
  intros Hseed Hmax Hpeers.
  apply seeding_eqb in Hseed. apply gtb_false in Hmax.
  apply has_peers_of_true in Hpeers.
  exec. reflexivity.
Qed.

Lemma neither_condition_no_action_witness :
  steps 7 (refusing [t_neither])
    (mk (L11 [t_neither]) [header_line] [] (Some 0))
  = mk (L11 []) [header_line] [] (Some 0).
Proof.
  apply neither_condition_no_action.
  - reflexivity.
  - cbn. discriminate.
  - exists (stat 3 2). split; [now left | reflexivity].
Defined.

(** ** The two conditions *)

Lemma seeders_trigger_exists t :
  seeders_trigger t = true
  <-> exists st, In st (trackerStats t) /\ MAX_SEEDERS < seederCount st.
Proof.
  unfold seeders_trigger. split.
  - intros H. destruct (trackerStats t) as [|st0 rest] eqn:E.
    + rewrite (seeders_of_empty t E) in H. discriminate.
    + destruct (seeders_of_max t) as [(st & Hin & Hm) _];
        [rewrite E; discriminate|].
      rewrite E in Hin. exists st. split; [exact Hin|].
      rewrite Hm. destruct (Z.gtb_spec (seeders_of t) MAX_SEEDERS);
        [assumption | discriminate].
  - intros (st & Hin & Hm).
    destruct (seeders_of_max t) as [_ Hub].
    + intros E. rewrite E in Hin. destruct Hin.
    + specialize (Hub st Hin). apply gtb_true. lia.
Qed.

(** [X2] The threshold condition of line 16 holds exactly when some tracker
    reports more than [MAX_SEEDERS] seeders; in particular never for a
    torrent without tracker statistics. *)
Theorem seeders_trigger_iff t :
  (seeders_of t >? MAX_SEEDERS) = true
  <-> exists st, In st (trackerStats t) /\ MAX_SEEDERS < seederCount st.
Proof. apply seeders_trigger_exists. Qed.

(** [X3] The order in which the trackers are listed does not matter: two
    torrents whose tracker statistics are permutations of each other get
    the same seeder count and the same peers flag. *)
Theorem tracker_order_irrelevant t1 t2 :
  Permutation (trackerStats t1) (trackerStats t2) ->
  seeders_of t1 = seeders_of t2 /\ has_peers_of t1 = has_peers_of t2.
Proof.
  intros HP. split.
  - destruct (trackerStats t1) as [|a l1] eqn:E1.
    + apply Permutation_nil in HP.
      now rewrite (seeders_of_empty t1 E1), (seeders_of_empty t2 HP).
    + assert (N1 : trackerStats t1 <> []) by (rewrite E1; discriminate).
      assert (N2 : trackerStats t2 <> []).
      { intros E2. rewrite E2 in HP. apply Permutation_sym in HP.
        apply Permutation_nil in HP. discriminate. }
      rewrite <- E1 in HP.
      destruct (seeders_of_max t1 N1) as [(s1 & I1 & M1) U1].
      destruct (seeders_of_max t2 N2) as [(s2 & I2 & M2) U2].
      pose proof (U2 s1 (Permutation_in _ HP I1)).
      pose proof (U1 s2 (Permutation_in _ (Permutation_sym HP) I2)).
      lia.
  - destruct (has_peers_of t1) eqn:P1; symmetry.
    + apply has_peers_of_true in P1. destruct P1 as (st & Hin & Hpos).
      apply has_peers_of_true. exists st.
      split; [eapply Permutation_in; eassumption | exact Hpos].
    + apply has_peers_of_false. intros st Hin.
      rewrite has_peers_of_false in P1. apply P1.
      eapply Permutation_in; [apply Permutation_sym|]; eassumption.
Qed.

Lemma tracker_order_irrelevant_witness :
  seeders_of (torrent "x" "seeding" [stat 2 0; stat 9 1])
  = seeders_of (torrent "x" "seeding" [stat 9 1; stat 2 0])
  /\ has_peers_of (torrent "x" "seeding" [stat 2 0; stat 9 1])
     = has_peers_of (torrent "x" "seeding" [stat 9 1; stat 2 0]).
Proof.
  apply tracker_order_irrelevant. cbn [trackerStats torrent]. apply perm_swap.
Defined.

(** ** The seeder tag of line 17 *)

Lemma digits_nonempty d :
  d <> Decimal.Nil ->
  NilZero.uint_of_string (NilEmpty.string_of_uint d)
  = NilEmpty.uint_of_string (NilEmpty.string_of_uint d).
Proof. destruct d; [congruence | reflexivity ..]. Qed.

(** [X4] The tag [format(z, '03')] reads back as [z] for every int, sign
    included, so two different counts never print the same tag. *)
Theorem format_03_roundtrip z :
  Py.int_of_str (Py.format_03 z) = Some z
  /\ (forall z', Py.format_03 z' = Py.format_03 z -> z' = z).
Proof.
  assert (R : forall y, Py.int_of_str (Py.format_03 y) = Some y).
  { intros y. destruct (Z.le_gt_cases 0 y) as [L|L];
      [now apply PyFacts.format_03_value|].
    destruct y as [|p|p]; try lia.
    unfold Py.format_03. cbn [Z.ltb Z.compare Z.opp]. unfold Py.pad0.
    rewrite PyFacts.str_pos, PyFacts.zeros_digits.
    pose proof (PyFacts.iter_D0_nonnil
                  (2 - String.length
                         (NilEmpty.string_of_uint (Pos.to_uint p)))
                  _ (DecimalPos.Unsigned.to_uint_nonnil p)) as Hn.
    unfold Py.int_of_str. cbn [NilZero.int_of_string Ascii.eqb Bool.eqb].
    rewrite (digits_nonempty _ Hn), NilEmpty.usu.
    cbn [option_map Z.of_int]. rewrite PyFacts.of_uint_zeros.
    unfold Z.of_uint. now rewrite DecimalPos.Unsigned.of_to. }
  split; [apply R|].
  intros z' E. pose proof (R z') as Hz'. rewrite E, R in Hz'. congruence.
Qed.

Lemma short_numeral_small d :
  (String.length (NilEmpty.string_of_uint d) <= 2)%nat -> Z.of_uint d <= 99.
Proof.
  intros H.
  destruct d as [|d|d|d|d|d|d|d|d|d|d]; [cbn; lia | ..];
    (destruct d as [|d|d|d|d|d|d|d|d|d|d]; [cbn; lia | ..]);
    (destruct d; [cbn; lia | cbn in H; lia ..]).
Qed.

Lemma width_up_to_999 :
  forallb (fun k => Nat.eqb (String.length (Py.format_03 (Z.of_nat k))) 3)
          (seq 0 1000) = true.
Proof. vm_compute. reflexivity. Qed.

(** [X5] For a count from 0 to 999 the tag is exactly three characters
    wide, and from 100 on it is the plain numeral, without padding. *)
Theorem format_03_padding z :
  0 <= z ->
  (z < 1000 -> String.length (Py.format_03 z) = 3%nat)
  /\ (100 <= z -> Py.format_03 z = Py.str z).
Proof.
  intros Hz. split.
  - intros Hlt. pose proof width_up_to_999 as W.
    rewrite forallb_forall in W.
    specialize (W (Z.to_nat z)). rewrite Z2Nat.id in W by exact Hz.
    apply Nat.eqb_eq, W, in_seq. lia.
  - intros Hge. unfold Py.format_03.
    destruct (Z.ltb_spec z 0) as [L|_]; [lia|].
    destruct z as [|p|p]; try lia.
    unfold Py.pad0. rewrite PyFacts.str_pos.
    destruct (Nat.le_gt_cases
                (String.length (NilEmpty.string_of_uint (Pos.to_uint p))) 2)
      as [Hshort|Hlong].
    + apply short_numeral_small in Hshort. unfold Z.of_uint in Hshort.
      rewrite DecimalPos.Unsigned.of_to in Hshort. cbn in Hshort. lia.
    + replace (3 - String.length
                     (NilEmpty.string_of_uint (Pos.to_uint p)))%nat
        with O by lia.
      reflexivity.
Qed.

Lemma format_03_padding_witness :
  (7 < 1000 -> String.length (Py.format_03 7) = 3%nat)
  /\ (100 <= 7 -> Py.format_03 7 = Py.str 7).
Proof. apply format_03_padding. lia. Defined.

(** ** Complete runs *)

(** [X6] A run that completes has printed the header, then for each listed
    torrent in listing order the lines of its iteration, then the summary;
    it has sent the stop commands of each iteration in the same order. *)
Theorem completed_run_output svc ts :
  get_torrents svc = Some ts ->
  pc (main svc) = Exit ->
  stdout (main svc)
  = header_line :: flat_map lines_of ts ++ [summary_line (total_triggers ts)]
  /\ issued (main svc) = flat_map stops_of ts
  /\ pausedCount (main svc) = Some (total_triggers ts).
Proof.
  intros Hg Hpc.
  destruct (Inv_at_Exit svc (main svc)) as (ts' & Hg' & E);
    [apply reachable_Inv, main_reachable | exact Hpc |].
  assert (ts' = ts) by congruence. subst ts'. rewrite E.
  repeat split.
Qed.

Lemma completed_run_output_witness :
  stdout (main (reliable [t_seeders; t_both]))
  = header_line :: flat_map lines_of [t_seeders; t_both]
      ++ [summary_line (total_triggers [t_seeders; t_both])]
  /\ issued (main (reliable [t_seeders; t_both]))
     = flat_map stops_of [t_seeders; t_both]
  /\ pausedCount (main (reliable [t_seeders; t_both]))
     = Some (total_triggers [t_seeders; t_both]).
Proof. apply completed_run_output; reflexivity. Defined.

Example completed_run_in_listing_order :
  stdout (main (reliable [t_seeders; t_both]))
  = ["Pausing all with >5 seeders or no leechers"; "[006] d"; "[010] a";
     "[nop] a"; "Paused 3"]
  /\ issued (main (reliable [t_seeders; t_both]))
     = [t_seeders; t_both; t_both].
Proof. split; reflexivity. Qed.

(** ** Which commands are sent, and how many *)

Lemma stops_of_triggered t x :
  In x (stops_of t) ->
  x = t /\ (seeders_trigger t = true \/ no_peers_trigger t = true).
Proof.
  unfold stops_of, first_stops.
  destruct (status t =? "seeding")%string; [|intros []].
  destruct (seeders_trigger t), (no_peers_trigger t); cbn;
    intuition (subst; auto).
Qed.

Lemma mid_stops_triggered svc k it t p ls ss n x :
  mid svc k it t p ls ss n -> In x ss ->
  x = t /\ (seeders_trigger t = true \/ no_peers_trigger t = true).
Proof.
  destruct 1; cbn [In]; try (intros []; fail);
    rewrite ?in_app_iff; unfold first_stops;
    destruct (seeders_trigger t) eqn:E; cbn [In]; intuition (subst; auto).
Qed.

Lemma Inv_issued_listed svc c x :
  Inv svc c -> In x (issued c) ->
  (exists ts, get_torrents svc = Some ts /\ In x ts)
  /\ (seeders_trigger x = true \/ no_peers_trigger x = true).
Proof.
  assert (Hdone : forall done, In x (flat_map stops_of done) ->
            In x done
            /\ (seeders_trigger x = true \/ no_peers_trigger x = true)).
  { intros done Hin. apply in_flat_map in Hin.
    destruct Hin as (t & Ht & Hin).
    apply stops_of_triggered in Hin. destruct Hin as [-> ?]. now split. }
  destruct 1; cbn [issued mk]; try (intros []; fail).
  - intros Hin. destruct (Hdone _ Hin) as [Hd Ht]. split; [|exact Ht].
    exists ts. split; [assumption|]. subst ts. apply in_or_app. now left.
  - rewrite in_app_iff. intros [Hin|Hin].
    + destruct (Hdone _ Hin) as [Hd Ht]. split; [|exact Ht].
      exists ts. split; [assumption|]. subst ts. apply in_or_app. now left.
    + match goal with Hm : mid _ _ _ _ _ _ _ _ |- _ =>
        destruct (mid_stops_triggered _ _ _ _ _ _ _ _ _ Hm Hin) as [-> Ht]
      end.
      split; [|exact Ht]. exists ts. split; [assumption|]. subst ts.
      apply in_or_app. right. now left.
  - intros Hin. destruct (Hdone _ Hin) as [Hd Ht]. split; [|exact Ht].
    now exists ts.
  - intros Hin. destruct (Hdone _ Hin) as [Hd Ht]. split; [|exact Ht].
    now exists ts.
Qed.

(** [X7] A stop command is only ever sent for a torrent that is in the
    listing, is seeding, and has a tracker reporting more than
    [MAX_SEEDERS] seeders or has no tracker reporting a leecher. *)
Theorem stops_only_when_triggered svc c x :
  reachable svc c -> In x (issued c) ->
  (exists ts, get_torrents svc = Some ts /\ In x ts)
  /\ status x = "seeding"
  /\ ((exists st, In st (trackerStats x) /\ MAX_SEEDERS < seederCount st)
      \/ (forall st, In st (trackerStats x) -> ~ 0 < leecherCount st)).
Proof.
  intros Hr Hin. pose proof (reachable_Inv _ _ Hr) as HI.
  destruct (Inv_issued_listed svc c x HI Hin) as [Hl Ht].
  split; [exact Hl|]. split; [exact (Inv_issued_seeding svc c x HI Hin)|].
  destruct Ht as [Ht|Ht].
  - left. now apply seeders_trigger_exists.
  - right. apply has_peers_of_false. unfold no_peers_trigger in Ht.
    now destruct (has_peers_of x).
Qed.

Lemma stops_only_when_triggered_witness :
  (exists ts,
      get_torrents (reliable [t_neither; t_seeders]) = Some ts
      /\ In t_seeders ts)
  /\ status t_seeders = "seeding"
  /\ ((exists st,
          In st (trackerStats t_seeders) /\ MAX_SEEDERS < seederCount st)
      \/ (forall st, In st (trackerStats t_seeders) -> ~ 0 < leecherCount st)).
Proof.
  apply (stops_only_when_triggered (reliable [t_neither; t_seeders])
           (main (reliable [t_neither; t_seeders]))).
  - apply main_reachable.
  - left. reflexivity.
Defined.

Lemma length_first_lines_le t : (List.length (first_lines t) <= 1)%nat.
Proof. unfold first_lines. destruct (seeders_trigger t); cbn; lia. Qed.

Lemma length_first_stops_le t : (List.length (first_stops t) <= 1)%nat.
Proof. unfold first_stops. destruct (seeders_trigger t); cbn; lia. Qed.

Lemma length_lines_of_le t : (List.length (lines_of t) <= 2)%nat.
Proof.
  unfold lines_of. destruct (status t =? "seeding")%string; [|cbn; lia].
  rewrite length_app. pose proof (length_first_lines_le t).
  destruct (no_peers_trigger t); cbn [List.length]; lia.
Qed.

Lemma length_stops_of_le t : (List.length (stops_of t) <= 2)%nat.
Proof.
  unfold stops_of. destruct (status t =? "seeding")%string; [|cbn; lia].
  rewrite length_app. pose proof (length_first_stops_le t).
  destruct (no_peers_trigger t); cbn [List.length]; lia.
Qed.

Lemma length_flat_map_le {A B} (f : A -> list B) b l :
  (forall x, List.length (f x) <= b)%nat ->
  (List.length (flat_map f l) <= b * List.length l)%nat.
Proof.
  intros H. induction l as [|x l IH]; cbn [flat_map List.length]; [lia|].
  rewrite length_app. specialize (H x). lia.
Qed.

Lemma mid_lengths svc k it t p ls ss n :
  mid svc k it t p ls ss n ->
  (List.length ls <= 2)%nat /\ (List.length ss <= 2)%nat /\ 0 <= n <= 1.
Proof.
  pose proof (length_first_lines_le t). pose proof (length_first_stops_le t).
  destruct 1; rewrite ?length_app; cbn [List.length];
    destruct (seeders_trigger t); cbn [Z.b2z]; lia.
Qed.

(** [X8] Whatever the service answers, a run over a listing of N torrents
    sends at most 2N stop commands, prints at most 2N + 2 lines, and its
    counter stays between 0 and 2N. *)
Theorem run_effects_bounded svc c ts :
  reachable svc c ->
  get_torrents svc = Some ts ->
  (List.length (issued c) <= 2 * List.length ts)%nat
  /\ (List.length (stdout c) <= 2 * List.length ts + 2)%nat
  /\ (forall n, pausedCount c = Some n ->
                0 <= n <= 2 * Z.of_nat (List.length ts)).
Proof.
  intros Hr Hg. pose proof (reachable_Inv _ _ Hr) as HI.
  assert (HL : forall l, (List.length (flat_map lines_of l)
                          <= 2 * List.length l)%nat)
    by (intros l; apply length_flat_map_le, length_lines_of_le).
  assert (HS : forall l, (List.length (flat_map stops_of l)
                          <= 2 * List.length l)%nat)
    by (intros l; apply length_flat_map_le, length_stops_of_le).
  assert (HT : forall l, 0 <= total_triggers l
                         <= 2 * Z.of_nat (List.length l)).
  { intros l. rewrite <- length_done_stops. specialize (HS l). lia. }
  destruct HI; cbn [issued stdout pausedCount mk List.length];
    try (repeat split; try discriminate; lia).
  - assert (ts0 = ts) by congruence. subst ts0. subst ts.
    rewrite length_app. specialize (HL done). specialize (HS done).
    specialize (HT done).
    split; [lia|]. split; [lia|]. intros n [= <-].
    rewrite Nat2Z.inj_add. lia.
  - assert (ts0 = ts) by congruence. subst ts0. subst ts.
    match goal with Hm : mid _ _ _ _ _ _ _ _ |- _ =>
      destruct (mid_lengths _ _ _ _ _ _ _ _ Hm) as (M1 & M2 & M3) end.
    rewrite !length_app. cbn [List.length].
    specialize (HL done). specialize (HS done). specialize (HT done).
    split; [lia|]. split; [lia|]. intros n' [= <-].
    rewrite Nat2Z.inj_add. cbn [List.length]. lia.
  - assert (ts0 = ts) by congruence. subst ts0.
    specialize (HL ts). specialize (HS ts). specialize (HT ts).
    split; [lia|]. split; [lia|]. intros n [= <-]. lia.
  - assert (ts0 = ts) by congruence. subst ts0.
    specialize (HL ts). specialize (HS ts). specialize (HT ts).
    rewrite length_app. cbn [List.length].
    split; [lia|]. split; [lia|]. intros n [= <-]. lia.
Qed.

Lemma run_effects_bounded_witness :
  (List.length (issued (main (reliable [t_both; t_empty])))
   <= 2 * List.length [t_both; t_empty])%nat
  /\ (List.length (stdout (main (reliable [t_both; t_empty])))
      <= 2 * List.length [t_both; t_empty] + 2)%nat
  /\ (forall n, pausedCount (main (reliable [t_both; t_empty])) = Some n ->
                0 <= n <= 2 * Z.of_nat (List.length [t_both; t_empty])).
Proof.
  apply (run_effects_bounded (reliable [t_both; t_empty])).
  - apply main_reachable.
  - reflexivity.
Defined.

(** ** Refused commands *)

Lemma all_accepted_nil svc : all_accepted svc [].
Proof. intros pre t post E. now destruct pre. Qed.

Lemma all_accepted_snoc svc sent t :
  all_accepted svc sent ->
  stop_ok svc (List.length sent) t = true ->
  all_accepted svc (sent ++ [t]).
Proof.
  intros Hall Hok pre x post E.
  destruct post as [|y post'] using rev_ind.
  - apply app_inj_tail in E. destruct E as [-> ->]. exact Hok.
  - clear IHpost'. rewrite app_comm_cons, app_assoc in E.
    apply app_inj_tail in E. destruct E as [E _].
    now apply (Hall pre x post').
Qed.

Lemma consistent_step svc c c' :
  consistent svc c -> step svc c = Some c' -> consistent svc c'.
Proof.
  destruct c as [p out sent cnt]. unfold consistent, step. cbn [pc issued].
  destruct p as [| | | | [|? ?] | | | | | | | | | | | | | | | ];
    intros Hc Hs; try discriminate; injection Hs as <-;
    unfold rpc_stop, incr, raise, goto, print;
    cbn [pc stdout issued pausedCount];
    repeat match goal with
      | |- context [if ?b then _ else _] => destruct b eqn:?
      | |- context [match ?x with Some _ => _ | None => _ end] =>
          destruct x eqn:?
      end;
    cbn [pc issued]; try exact Hc;
    try (now apply all_accepted_snoc);
    exists sent; repeat split; assumption.
Qed.

Lemma reachable_consistent svc c : reachable svc c -> consistent svc c.
Proof.
  induction 1 as [|c c' _ IH Hs]; [apply all_accepted_nil|].
  eapply consistent_step; eassumption.
Qed.

(** [X9] The run stops at the first refused stop command: when it has died
    on a stop command for [t], that command is the last one on record and
    every earlier one was accepted; in every other configuration, the
    completed run included, every command on record was accepted. *)
Theorem stops_accepted_until_refusal svc c :
  reachable svc c ->
  (forall t, pc c = Raised (StopFailed t) ->
             exists pre, issued c = pre ++ [t]
                         /\ all_accepted svc pre
                         /\ stop_ok svc (List.length pre) t = false)
  /\ ((forall t, pc c <> Raised (StopFailed t)) ->
      all_accepted svc (issued c)).
Proof.
  intros Hr. pose proof (reachable_consistent _ _ Hr) as Hc.
  unfold consistent in Hc. split.
  - intros t Ep. now rewrite Ep in Hc.
  - intros Hne. destruct (pc c) as [| | | | | | | | | | | | | | | | | | |e];
      try exact Hc.
    destruct e; try exact Hc. now destruct (Hne t).
Qed.

Lemma stops_accepted_until_refusal_witness :
  (forall t,
      pc (main (accepting 1 [t_both; t_empty])) = Raised (StopFailed t) ->
      exists pre,
        issued (main (accepting 1 [t_both; t_empty])) = pre ++ [t]
        /\ all_accepted (accepting 1 [t_both; t_empty]) pre
        /\ stop_ok (accepting 1 [t_both; t_empty]) (List.length pre) t
           = false)
  /\ ((forall t,
         pc (main (accepting 1 [t_both; t_empty])) <> Raised (StopFailed t)) ->
      all_accepted (accepting 1 [t_both; t_empty])
        (issued (main (accepting 1 [t_both; t_empty])))).
Proof.
  apply stops_accepted_until_refusal. apply main_reachable.
Defined.

Example second_command_refused :
  main (accepting 1 [t_both; t_empty])
  = mk (Raised (StopFailed t_both))
       ["Pausing all with >5 seeders or no leechers"; "[010] a"; "[nop] a"]
       [t_both; t_both] (Some 1).
Proof. reflexivity. Qed.

(** ** How a run ends *)

Lemma connected_step svc c c' :
  match pc c with
  | L06 | L07 | Raised ConnectFailed => True
  | _ => connect_ok svc = true
  end ->
  step svc c = Some c' ->
  match pc c' with
  | L06 | L07 | Raised ConnectFailed => True
  | _ => connect_ok svc = true
  end.
Proof.
  destruct c as [p out sent cnt]. unfold step. cbn [pc].
  destruct p as [| | | | [|? ?] | | | | | | | | | | | | | | | ];
    intros Hc Hs; try discriminate; injection Hs as <-;
    unfold rpc_stop, incr, raise, goto, print;
    cbn [pc stdout issued pausedCount];
    repeat match goal with
      | |- context [if ?b then _ else _] => destruct b eqn:?
      | |- context [match ?x with Some _ => _ | None => _ end] =>
          destruct x eqn:?
      end;
    cbn [pc]; auto.
Qed.

Lemma reachable_connected svc c :
  reachable svc c ->
  match pc c with
  | L06 | L07 | Raised ConnectFailed => True
  | _ => connect_ok svc = true
  end.
Proof.
  induction 1 as [|c c' _ IH Hs]; [exact I|].
  eapply connected_step; eassumption.
Qed.

Lemma Inv_StopFailed svc c t :
  Inv svc c -> pc c = Raised (StopFailed t) ->
  exists ts pre post,
    get_torrents svc = Some ts /\ In t ts
    /\ flat_map stops_of ts = pre ++ t :: post
    /\ stop_ok svc (List.length pre) t = false.
Proof.
  destruct 1; cbn [pc mk]; try discriminate. intros Ep.
  match goal with Hm : mid _ _ _ _ _ _ _ _ |- _ => destruct Hm end;
    try discriminate; injection Ep as ->; subst ts;
    match goal with Hs : seeding _ |- _ =>
      pose proof (stops_of_seeding _ Hs) as Est end.
  - exists (done ++ t :: it), (flat_map stops_of done),
      ((if no_peers_trigger t then [t] else []) ++ flat_map stops_of it).
    split; [assumption|]. split; [apply in_or_app; right; now left|].
    split; [|assumption].
    rewrite flat_map_app. cbn [flat_map]. rewrite Est. unfold first_stops.
    match goal with Ht : seeders_trigger _ = true |- _ => rewrite Ht end.
    reflexivity.
  - exists (done ++ t :: it), (flat_map stops_of done ++ first_stops t),
      (flat_map stops_of it).
    split; [assumption|]. split; [apply in_or_app; right; now left|].
    split; [|now rewrite length_app].
    rewrite flat_map_app. cbn [flat_map]. rewrite Est.
    match goal with Ht : no_peers_trigger _ = true |- _ => rewrite Ht end.
    now rewrite <- !app_assoc.
Qed.

Lemma Inv_halted_cases svc c :
  Inv svc c -> halted c = true ->
  pc c = Exit
  \/ (pc c = Raised ConnectFailed /\ connect_ok svc = false)
  \/ (pc c = Raised ListFailed /\ get_torrents svc = None)
  \/ (exists t, pc c = Raised (StopFailed t)).
Proof.
  destruct 1; cbn [pc mk halted]; try discriminate; auto.
  match goal with Hm : mid _ _ _ _ _ _ _ _ |- _ => destruct Hm end;
    cbn [halted pc mk]; try discriminate; intros _; right; right; right;
    now exists t.
Qed.

(** [X10] Every run ends, within [6 + 13 * N] statements, in one of four
    ways: normally; on the failed connection; on the failed listing (the
    connection having succeeded); or on a refused stop command for a listed
    torrent.  The counter is never read before line 9 has bound it. *)
Theorem run_outcome svc :
  step svc (main svc) = None
  /\ (forall c, reachable svc c -> pc c <> Raised Unbound)
  /\ ((pc (main svc) = Exit /\ connect_ok svc = true
       /\ exists ts, get_torrents svc = Some ts)
      \/ (pc (main svc) = Raised ConnectFailed /\ connect_ok svc = false)
      \/ (pc (main svc) = Raised ListFailed /\ connect_ok svc = true
          /\ get_torrents svc = None)
      \/ (exists t ts,
            pc (main svc) = Raised (StopFailed t) /\ connect_ok svc = true
            /\ get_torrents svc = Some ts /\ In t ts)).
Proof.
  pose proof (main_reachable svc) as Hr.
  pose proof (reachable_Inv _ _ Hr) as HI.
  pose proof (reachable_connected _ _ Hr) as Hc.
  split; [apply step_None_halted, main_halted|]. split.
  - intros c Hrc Ep. pose proof (reachable_Inv _ _ Hrc) as HIc.
    destruct HIc; cbn [pc mk] in Ep; try discriminate.
    match goal with Hm : mid _ _ _ _ _ _ _ _ |- _ => destruct Hm end;
      discriminate.
  - destruct (Inv_halted_cases svc _ HI (main_halted svc))
      as [Ep|[[Ep Hn]|[[Ep Hn]|[t Ep]]]]; rewrite Ep in Hc.
    + left. split; [exact Ep|]. split; [exact Hc|].
      destruct (Inv_at_Exit svc _ HI Ep) as (ts & Hg & _). now exists ts.
    + right. left. now split.
    + right. right. left. now repeat split.
    + right. right. right.
      destruct (Inv_StopFailed svc _ t HI Ep) as (ts & _ & _ & Hg & Hin & _).
      exists t, ts. now repeat split.
Qed.

(** [X11] The run completes exactly when the connection succeeds, the
    listing succeeds, and the service accepts every stop command that the
    two conditions call for, in listing order. *)
Theorem run_completes_iff svc :
  pc (main svc) = Exit
  <-> connect_ok svc = true
      /\ exists ts, get_torrents svc = Some ts
                    /\ all_accepted svc (flat_map stops_of ts).
Proof.
  pose proof (main_reachable svc) as Hr.
  pose proof (reachable_Inv _ _ Hr) as HI.
  pose proof (reachable_connected _ _ Hr) as Hc.
  split.
  - intros Ep. rewrite Ep in Hc. split; [exact Hc|].
    destruct (Inv_at_Exit svc _ HI Ep) as (ts & Hg & E).
    exists ts. split; [exact Hg|].
    pose proof (reachable_consistent _ _ Hr) as Hk.
    unfold consistent in Hk. rewrite Ep in Hk. now rewrite E in Hk.
  - intros (Hconn & ts & Hg & Hall).
    destruct (Inv_halted_cases svc _ HI (main_halted svc))
      as [Ep|[[Ep Hn]|[[Ep Hn]|[t Ep]]]]; try congruence.
    destruct (Inv_StopFailed svc _ t HI Ep)
      as (ts' & pre & post & Hg' & _ & Esplit & Hno).
    assert (ts' = ts) by congruence. subst ts'.
    rewrite (Hall pre t post Esplit) in Hno. discriminate.
Qed.

(** [X12] When no listed torrent is seeding with more than [MAX_SEEDERS]
    seeders or without leechers (an empty listing included), the run
    completes whatever the service would answer to a stop command: it
    prints the header and "Paused 0" and sends nothing. *)
Theorem nothing_to_pause svc ts :
  connect_ok svc = true ->
  get_torrents svc = Some ts ->
  (forall t, In t ts ->
             status t <> "seeding"
             \/ (seeders_of t <= MAX_SEEDERS /\ has_peers_of t = true)) ->
  main svc = mk Exit [header_line; "Paused 0"] [] (Some 0).
Proof.
  intros Hconn Hg Hnone.
  assert (Hstops : flat_map stops_of ts = []
                   /\ flat_map lines_of ts = []
                   /\ total_triggers ts = 0).
  { clear Hg. unfold total_triggers.
    induction ts as [|t ts IH]; cbn [flat_map fold_right];
      [now repeat split|].
    destruct IH as (I1 & I2 & I3);
      [intros x Hx; apply Hnone; now right|].
    rewrite I1, I2, I3.
    unfold stops_of, lines_of, triggers, first_stops, first_lines,
      seeders_trigger, no_peers_trigger.
    destruct (Hnone t (or_introl eq_refl)) as [Hs|[Hm Hp]].
    - apply String.eqb_neq in Hs. rewrite Hs. now repeat split.
    - rewrite (gtb_false _ _ Hm), Hp.
      destruct (status t =? "seeding")%string; now repeat split. }
  destruct Hstops as (Es & El & Et).
  assert (Ep : pc (main svc) = Exit).
  { pose proof (main_reachable svc) as Hr.
    pose proof (reachable_Inv _ _ Hr) as HI.
    destruct (Inv_halted_cases svc _ HI (main_halted svc))
      as [Ep|[[Ep Hn]|[[Ep Hn]|[t Ep]]]]; try congruence.
    destruct (Inv_StopFailed svc _ t HI Ep)
      as (ts' & pre & post & Hg' & _ & Esplit & _).
    assert (ts' = ts) by congruence. subst ts'.
    rewrite Es in Esplit. now destruct pre. }
  destruct (Inv_at_Exit svc (main svc)) as (ts' & Hg' & E);
    [apply reachable_Inv, main_reachable | exact Ep |].
  assert (ts' = ts) by congruence. subst ts'.
  now rewrite E, Es, El, Et.
Qed.

Lemma nothing_to_pause_witness :
  main (refusing [t_stopped; t_neither])
  = mk Exit [header_line; "Paused 0"] [] (Some 0).
Proof.
  apply (nothing_to_pause (refusing [t_stopped; t_neither])
           [t_stopped; t_neither]).
  - reflexivity.
  - reflexivity.
  - intros t [<-|[<-|[]]].
    + left. discriminate.
    + right. split; [cbn; discriminate | reflexivity].
Defined.
